(** * Schema inference of tensorflow_transform: a shallow embedding

    The development follows [tensorflow_transform/schema_inference.py].
    Python dictionaries keyed by feature names or by tensors are finite maps,
    the items of a dictionary that the code iterates over are an association
    list in iteration order, graph collections are lists in insertion order,
    and a raised exception is the [Raise] case of an error monad. *)

From stdpp Require Import base option list gmap fin_maps countable strings.
From Stdlib Require Import ZArith Ascii.

Local Open Scope string_scope.
Local Open Scope list_scope.

(** ** Exceptions and the error monad *)

(** The argument of [set_tensor_schema_override] named in a message. *)
Inductive override_arg := arg_tensor | arg_min_value | arg_max_value.

(** The [ValueError]s of the module, told apart by their message. *)
Inductive value_error :=
| invalid_dtype                 (* "... had invalid dtype ... for feature spec" *)
| invalid_shape_VarLen_rank     (* "... for VarLenFeature: must have rank 2" *)
| invalid_shape_FixedLen_rank   (* "... for FixedLenFeature: must have rank at least 1" *)
| invalid_shape_FixedLen_dims   (* "... all dimensions must have known size" *)
| as_list_unknown_rank          (* TensorShape.as_list() of an unknown shape *)
| was_not_a_Tensor (a : override_arg)
| range_only_for_int64
| value_out_of_range.           (* an integer that does not fit an int64 field *)

Inductive exn :=
| ValueError (msg : value_error)
| TypeError
| AssertionError.

Inductive result (A : Type) :=
| Ok (a : A)
| Raise (e : exn).
Arguments Ok {A} a.
Arguments Raise {A} e.

#[global] Instance result_ret : MRet result := fun A a => Ok a.
#[global] Instance result_bind : MBind result := fun A B f c =>
  match c with
  | Ok a => f a
  | Raise e => Raise e
  end.

Definition raises {A} (c : result A) : Prop := exists e, c = Raise e.

(** The messages that report a rank or a dimension, as opposed to a dtype. *)
Definition invalid_shape_error (e : exn) : bool :=
  match e with
  | ValueError invalid_shape_VarLen_rank
  | ValueError invalid_shape_FixedLen_rank
  | ValueError invalid_shape_FixedLen_dims => true
  | _ => false
  end.

(** ** Tensors *)

Inductive DType :=
| tf_float16 | tf_float32 | tf_float64
| tf_int8 | tf_int16 | tf_int32 | tf_int64
| tf_uint8 | tf_uint16
| tf_bool | tf_string
| tf_complex64 | tf_complex128.

#[global] Instance DType_eq_dec : EqDecision DType.
Proof. solve_decision. Defined.

Definition DType_code (d : DType) : nat :=
  match d with
  | tf_float16 => 0 | tf_float32 => 1 | tf_float64 => 2
  | tf_int8 => 3 | tf_int16 => 4 | tf_int32 => 5 | tf_int64 => 6
  | tf_uint8 => 7 | tf_uint16 => 8
  | tf_bool => 9 | tf_string => 10
  | tf_complex64 => 11 | tf_complex128 => 12
  end.

Definition DType_of_code (n : nat) : DType :=
  match n with
  | 0 => tf_float16 | 1 => tf_float32 | 2 => tf_float64
  | 3 => tf_int8 | 4 => tf_int16 | 5 => tf_int32 | 6 => tf_int64
  | 7 => tf_uint8 | 8 => tf_uint16
  | 9 => tf_bool | 10 => tf_string
  | 11 => tf_complex64 | _ => tf_complex128
  end.

#[global] Instance DType_countable : Countable DType.
Proof. by apply (inj_countable' DType_code DType_of_code); intros []. Defined.

(** A dimension is [None] when its size is not known statically; a shape is
    [None] when even the rank is unknown ([TensorShape(None)]). *)
Abbreviation Dimension := (option nat) (only parsing).
Abbreviation TensorShape := (option (list (option nat))) (only parsing).

(** [shape.ndims] *)
Definition ndims (shape : TensorShape) : option nat := length <$> shape.

(** [shape.as_list()], a [ValueError] on a shape of unknown rank. *)
Definition as_list (shape : TensorShape) : result (list Dimension) :=
  match shape with
  | Some dims => Ok dims
  | None => Raise (ValueError as_list_unknown_rank)
  end.

(** A [tf.Tensor] of a graph.  Tensors are compared by identity in Python;
    within one graph the name identifies the tensor. *)
Record Tensor := mkTensor {
  name : string;
  dtype : DType;
  get_shape : TensorShape
}.

#[global] Instance Tensor_eq_dec : EqDecision Tensor.
Proof. solve_decision. Defined.

#[global] Instance Tensor_countable : Countable Tensor.
Proof.
  apply (inj_countable'
           (fun t => (name t, dtype t, get_shape t))
           (fun p => mkTensor p.1.1 p.1.2 p.2)).
  by intros [].
Defined.

(** A [tf.SparseTensor]: its dtype is the dtype of [values] and its static
    shape is the one of [dense_shape]. *)
Record SparseTensor := mkSparseTensor {
  values : Tensor;
  dense_shape : TensorShape
}.

(** What a features dictionary can hold: a [Tensor], a [SparseTensor], or an
    object of another class that still answers [dtype] and [get_shape()]. *)
Inductive Feature :=
| Dense (t : Tensor)
| Sparse (s : SparseTensor)
| Other (d : DType) (shape : TensorShape).

Definition feature_dtype (tensor : Feature) : DType :=
  match tensor with
  | Dense t => dtype t
  | Sparse s => dtype (values s)
  | Other d _ => d
  end.

Definition feature_get_shape (tensor : Feature) : TensorShape :=
  match tensor with
  | Dense t => get_shape t
  | Sparse s => dense_shape s
  | Other _ shape => shape
  end.

(** ** Feature-spec inference *)

Inductive FeatureSpec :=
| VarLenFeature (d : DType)
| FixedLenFeature (shape : list Dimension) (d : DType).

(** [tensor.dtype not in (tf.string, tf.int64, tf.float32)] *)
Definition dtype_not_supported (d : DType) : bool :=
  negb (bool_decide (d ∈ [tf_string; tf_int64; tf_float32])).

(** [dim is None] *)
Definition is_None {A} (o : option A) : bool :=
  match o with None => true | Some _ => false end.

(** The body of the loop of [_feature_spec_from_batched_tensors]: the
    descriptor of one tensor, or the exception it raises. *)
Definition feature_spec_of_tensor (tensor : Feature) : result FeatureSpec :=
  let shape := feature_get_shape tensor in
  if dtype_not_supported (feature_dtype tensor) then
    Raise (ValueError invalid_dtype)
  else
    match tensor with
    | Sparse _ =>
        if bool_decide (ndims shape ≠ Some 2) then
          Raise (ValueError invalid_shape_VarLen_rank)
        else Ok (VarLenFeature (feature_dtype tensor))
    | Dense _ =>
        if bool_decide (ndims shape ∈ [None; Some 0]) then
          Raise (ValueError invalid_shape_FixedLen_rank)
        else
          dims ← as_list shape;
          if existsb is_None (drop 1 dims) then
            Raise (ValueError invalid_shape_FixedLen_dims)
          else Ok (FixedLenFeature (drop 1 dims) (feature_dtype tensor))
    | Other _ _ => Raise TypeError
    end.

(** The loop itself, over the items of [tensors] in iteration order. *)
Fixpoint feature_spec_loop (items : list (string * Feature))
    (acc : gmap string FeatureSpec) : result (gmap string FeatureSpec) :=
  match items with
  | [] => Ok acc
  | (key, tensor) :: rest =>
      spec ← feature_spec_of_tensor tensor;
      feature_spec_loop rest (<[key := spec]> acc)
  end.

Definition _feature_spec_from_batched_tensors
    (tensors : list (string * Feature)) : result (gmap string FeatureSpec) :=
  feature_spec_loop tensors ∅.

(** ** Protocol-buffer messages built by the module *)

(** [schema_pb2.IntDomain(min=..., max=..., is_categorical=...)]; a field
    given as [None] stays unset. *)
Module schema_pb2.
Record IntDomain := mkIntDomain {
  min : option Z;
  max : option Z;
  is_categorical : bool
}.
End schema_pb2.

(** [any_pb2.Any(type_url=..., value=...)], the typed-annotation record. *)
Module any_pb2.
Record Any := mkAny {
  type_url : string;
  value : string
}.
End any_pb2.

(** ** The graph: its collections and its naming state *)

(** The [proto_message] of an annotation: a serialized message given
    literally, or a tensor that yields one when it is run. *)
Inductive ProtoMessage :=
| Literal (serialized : string)
| Deferred (t : Tensor).

(** The six collections of the graph that the module reads and writes, each
    under the name of its key, and the name scope under which new operations
    of the graph are created ([""] at the top level). *)
Record Graph := mkGraph {
  tft_schema_override_tensor : list Tensor;
  tft_schema_override_min : list Tensor;
  tft_schema_override_max : list Tensor;
  tft_schema_override_annotation_tensor : list Tensor;
  tft_schema_override_annotation_type : list string;
  tft_schema_override_annotation_proto : list ProtoMessage;
  name_stack : string
}.

Definition _TF_METADATA_EXTRA_ANNOTATION_GLOBAL : string :=
  "tft_schema_override_global_sentinel".

(** What running a tensor can give as a bound: an integer scalar, of any
    integer dtype, or a value of another kind (a float or boolean scalar, a
    byte string, an array). *)
Inductive RunValue :=
| integer_scalar (z : Z)
| other_value.

(** A [tf.Session]: [run] is what running a min or max tensor gives, and
    [run_bytes] the bytes that running the string tensor of a serialized
    message gives. *)
Record Session := mkSession {
  run : Tensor -> RunValue;
  run_bytes : Tensor -> string
}.

(** An integer fits the int64 fields [min] and [max] of [IntDomain]. *)
Definition fits_int64 (z : Z) : bool :=
  ((- 2 ^ 63 <=? z) && (z <? 2 ^ 63))%Z.

(** Setting an int64 field of a message from a keyword argument: [None]
    leaves the field unset, an integer in range sets it, an integer out of
    range is a [ValueError] and any other value a [TypeError]. *)
Definition int64_field (v : option RunValue) : result (option Z) :=
  match v with
  | None => Ok None
  | Some (integer_scalar z) =>
      if fits_int64 z then Ok (Some z) else Raise (ValueError value_out_of_range)
  | Some other_value => Raise TypeError
  end.

(** [schema_pb2.IntDomain(min=min_value, max=max_value,
    is_categorical=is_categorical)] *)
Definition IntDomain_init (min_value max_value : option RunValue)
    (is_categorical : bool) : result schema_pb2.IntDomain :=
  mn ← int64_field min_value;
  mx ← int64_field max_value;
  Ok (schema_pb2.mkIntDomain mn mx is_categorical).

(** An argument of the registration function before its class is checked. *)
Inductive PyObject :=
| a_Tensor (t : Tensor)
| a_SparseTensor (s : SparseTensor)
| a_int (z : Z)
| a_bytes (b : string)
| a_None.

(** ** Overrides *)

(** The three [tf.compat.v1.add_to_collection] calls of the registration. *)
Definition add_override (tensor min_value max_value : Tensor) (g : Graph) : Graph :=
  mkGraph (tft_schema_override_tensor g ++ [tensor])
          (tft_schema_override_min g ++ [min_value])
          (tft_schema_override_max g ++ [max_value])
          (tft_schema_override_annotation_tensor g)
          (tft_schema_override_annotation_type g)
          (tft_schema_override_annotation_proto g)
          (name_stack g).

(** [set_tensor_schema_override]: the outcome of the call and the graph it
    leaves behind. *)
Definition set_tensor_schema_override (tensor min_value max_value : PyObject)
    (g : Graph) : result unit * Graph :=
  match tensor with
  | a_Tensor t =>
      if bool_decide (dtype t ≠ tf_int64) then
        (Raise (ValueError range_only_for_int64), g)
      else
        match min_value with
        | a_Tensor mn =>
            match max_value with
            | a_Tensor mx => (Ok tt, add_override t mn mx g)
            | _ => (Raise (ValueError (was_not_a_Tensor arg_max_value)), g)
            end
        | _ => (Raise (ValueError (was_not_a_Tensor arg_min_value)), g)
        end
  | _ => (Raise (ValueError (was_not_a_Tensor arg_tensor)), g)
  end.

(** [assert cond] *)
Definition py_assert (cond : bool) : result unit :=
  if cond then Ok tt else Raise AssertionError.

(** [dict(items)]: the items are inserted one after the other, so a later
    item replaces an earlier one with the same key. *)
Definition dict `{Countable K} {V} (items : list (K * V)) : gmap K V :=
  foldl (fun d kv => <[kv.1 := kv.2]> d) ∅ items.

Definition _get_tensor_schema_overrides (graph : Graph)
    : result (gmap Tensor (Tensor * Tensor)) :=
  let tensors := tft_schema_override_tensor graph in
  let min_values := tft_schema_override_min graph in
  let max_values := tft_schema_override_max graph in
  _ ← py_assert (bool_decide (length tensors = length min_values));
  _ ← py_assert (bool_decide (length tensors = length max_values));
  Ok (dict (zip tensors (zip min_values max_values))).

(** ** Annotations *)

(** [s.split(sep)] for a separator of one character: the pieces between the
    occurrences of [sep], never an empty list. *)
Fixpoint str_split (sep : ascii) (s : string) : list string :=
  match s with
  | EmptyString => [EmptyString]
  | String c rest =>
      if bool_decide (c = sep) then EmptyString :: str_split sep rest
      else
        match str_split sep rest with
        | piece :: pieces => String c piece :: pieces
        | [] => [String c EmptyString]
        end
  end.

(** [l[-1]] of a list of strings that is not empty. *)
Definition last_item (l : list string) : string := default EmptyString (last l).

(** [tf.constant('unused', name=base)]: the new tensor is named after the
    current name scope, the requested name made unique in the graph by the
    suffix [uniq] (empty, or ["_1"], ["_2"], ...), and the output index. *)
Definition tf_constant (g : Graph) (uniq : string) (base : string) : Tensor :=
  let scope := if bool_decide (name_stack g = EmptyString) then EmptyString
               else name_stack g +:+ "/" in
  mkTensor (scope +:+ base +:+ uniq +:+ ":0") tf_string (Some []).

(** [annotate(type_url, proto_message, tensor=None)] *)
Definition annotate (uniq : string) (type_url : string)
    (proto_message : ProtoMessage) (tensor : option Tensor) (g : Graph) : Graph :=
  let tensor :=
    match tensor with
    | None => tf_constant g uniq _TF_METADATA_EXTRA_ANNOTATION_GLOBAL
    | Some t => t
    end in
  mkGraph (tft_schema_override_tensor g)
          (tft_schema_override_min g)
          (tft_schema_override_max g)
          (tft_schema_override_annotation_tensor g ++ [tensor])
          (tft_schema_override_annotation_type g ++ [type_url])
          (tft_schema_override_annotation_proto g ++ [proto_message])
          (name_stack g).

(** [tensor.name.split('/')[-1].startswith(sentinel)] *)
Definition is_global_anchor (tensor : Tensor) : bool :=
  let tensor_name := last_item (str_split "/"%char (name tensor)) in
  String.prefix _TF_METADATA_EXTRA_ANNOTATION_GLOBAL tensor_name.

(** The payload after [if isinstance(proto_value, tf.Tensor): ...]. *)
Definition resolve_proto (session : Session) (proto_value : ProtoMessage) : string :=
  match proto_value with
  | Deferred t => run_bytes session t
  | Literal b => b
  end.

(** [tensor_annotations[tensor].append(annotation)] on a
    [collections.defaultdict(list)]. *)
Definition defaultdict_append (d : gmap Tensor (list any_pb2.Any))
    (tensor : Tensor) (annotation : any_pb2.Any) : gmap Tensor (list any_pb2.Any) :=
  <[tensor := default [] (d !! tensor) ++ [annotation]]> d.

(** One turn of the loop of [_get_schema_annotations]. *)
Definition annotations_step (session : Session)
    (acc : gmap Tensor (list any_pb2.Any) * list any_pb2.Any)
    (entry : Tensor * (string * ProtoMessage))
    : gmap Tensor (list any_pb2.Any) * list any_pb2.Any :=
  let '(tensor, (type_url, proto_value)) := entry in
  let proto_value := resolve_proto session proto_value in
  if bool_decide (proto_value = EmptyString) then acc
  else
    let annotation := any_pb2.mkAny type_url proto_value in
    if is_global_anchor tensor then (acc.1, acc.2 ++ [annotation])
    else (defaultdict_append acc.1 tensor annotation, acc.2).

Definition _get_schema_annotations (graph : Graph) (session : Session)
    : gmap Tensor (list any_pb2.Any) * list any_pb2.Any :=
  foldl (annotations_step session) (∅, [])
    (zip (tft_schema_override_annotation_tensor graph)
         (zip (tft_schema_override_annotation_type graph)
              (tft_schema_override_annotation_proto graph))).

(** ** Schema assembly *)

(** Modelled from the spec: [schema_utils.schema_from_feature_spec] and
    [dataset_schema.Schema] are not part of the module.  The schema is the
    join of the four arguments handed to the schema-construction
    collaborator: the feature-spec mapping, the per-feature integer-domain
    bounds, the per-feature annotation lists and the global annotation
    list. *)
Record Schema := schema_from_feature_spec {
  feature_spec : gmap string FeatureSpec;
  domains : gmap string schema_pb2.IntDomain;
  feature_annotations : gmap string (list any_pb2.Any);
  global_annotations : list any_pb2.Any
}.

(** [tensor.values if isinstance(tensor, tf.SparseTensor) else tensor], as a
    key of the dictionaries of the graph's tensors: an object that is no
    tensor is a key of neither. *)
Definition feature_values (tensor : Feature) : option Tensor :=
  match tensor with
  | Sparse s => Some (values s)
  | Dense t => Some t
  | Other _ _ => None
  end.

(** [session.run(tensor_ranges)] on the dictionary of (min, max) tensors. *)
Definition session_run_ranges (session : Session)
    (tensor_ranges : gmap Tensor (Tensor * Tensor))
    : gmap Tensor (option RunValue * option RunValue) :=
  (fun mm => (Some (run session mm.1), Some (run session mm.2)))
    <$> tensor_ranges.

(** The loop of [infer_feature_schema] over the items of [features]. *)
Fixpoint domains_loop
    (tensor_ranges : gmap Tensor (option RunValue * option RunValue))
    (tensor_annotations : gmap Tensor (list any_pb2.Any))
    (items : list (string * Feature))
    (domains : gmap string schema_pb2.IntDomain)
    (feature_annotations : gmap string (list any_pb2.Any))
    : result (gmap string schema_pb2.IntDomain * gmap string (list any_pb2.Any)) :=
  match items with
  | [] => Ok (domains, feature_annotations)
  | (key, tensor) :: rest =>
      match feature_values tensor with
      | Some values =>
          domains ←
            match tensor_ranges !! values with
            | Some (min_value, max_value) =>
                _ ← py_assert (bool_decide (dtype values = tf_int64));
                domain ← IntDomain_init min_value max_value true;
                Ok (<[key := domain]> domains)
            | None => Ok domains
            end;
          let feature_annotations :=
            match tensor_annotations !! values with
            | Some annotation => <[key := annotation]> feature_annotations
            | None => feature_annotations
            end in
          domains_loop tensor_ranges tensor_annotations rest domains feature_annotations
      | None =>
          domains_loop tensor_ranges tensor_annotations rest domains feature_annotations
      end
  end.

Definition infer_feature_schema (features : list (string * Feature))
    (graph : Graph) (session : option Session) : result Schema :=
  tensor_ranges ← _get_tensor_schema_overrides graph;
  let '(tensor_ranges, (tensor_annotations, global_annotations)) :=
    match session with
    | None =>
        ((fun _ => (None, None)) <$> tensor_ranges,
         ((∅ : gmap Tensor (list any_pb2.Any)), []))
    | Some session =>
        (session_run_ranges session tensor_ranges,
         _get_schema_annotations graph session)
    end in
  '(domains, feature_annotations) ←
    domains_loop tensor_ranges tensor_annotations features ∅ ∅;
  feature_spec ← _feature_spec_from_batched_tensors features;
  Ok (schema_from_feature_spec feature_spec domains feature_annotations
        global_annotations).

(** ** Notions used in the statements *)

(** Every tensor of the dictionary has a descriptor. *)
Definition all_inferable (tensors : list (string * Feature)) : Prop :=
  Forall (fun kt => exists spec, feature_spec_of_tensor kt.2 = Ok spec) tensors.

(** The preconditions of [set_tensor_schema_override], as its docstring and
    the specification give them. *)
Definition valid_override_arguments (tensor min_value max_value : PyObject) : Prop :=
  exists t mn mx,
    tensor = a_Tensor t /\ dtype t = tf_int64 /\
    min_value = a_Tensor mn /\ max_value = a_Tensor mx.

(** What a graph that was only written through the registration functions
    satisfies: the three override collections go together and every tensor
    with an override is an int64 tensor. *)
Definition overrides_consistent (g : Graph) : Prop :=
  length (tft_schema_override_tensor g) = length (tft_schema_override_min g) /\
  length (tft_schema_override_tensor g) = length (tft_schema_override_max g) /\
  Forall (fun t => dtype t = tf_int64) (tft_schema_override_tensor g).

Definition annotations_consistent (g : Graph) : Prop :=
  length (tft_schema_override_annotation_tensor g)
    = length (tft_schema_override_annotation_type g) /\
  length (tft_schema_override_annotation_tensor g)
    = length (tft_schema_override_annotation_proto g).

(** The registered annotations: the triples at equal positions of the three
    annotation collections. *)
Definition registered_annotations (g : Graph) : list (Tensor * (string * ProtoMessage)) :=
  zip (tft_schema_override_annotation_tensor g)
      (zip (tft_schema_override_annotation_type g)
           (tft_schema_override_annotation_proto g)).

(** The typed-annotation record of a registered annotation with its anchor,
    or nothing when the resolved payload is empty. *)
Definition surviving (session : Session) (entry : Tensor * (string * ProtoMessage))
    : option (Tensor * any_pb2.Any) :=
  let payload := resolve_proto session entry.2.2 in
  if decide (payload = EmptyString) then None
  else Some (entry.1, any_pb2.mkAny entry.2.1 payload).

(** The records of the annotations that survive, in registration order. *)
Definition resolved_annotations (session : Session) (g : Graph)
    : list (Tensor * any_pb2.Any) :=
  omap (surviving session) (registered_annotations g).

Definition anchored_at (t : Tensor) (p : Tensor * any_pb2.Any) : Prop :=
  is_global_anchor p.1 = false /\ p.1 = t.

#[global] Instance anchored_at_dec t p : Decision (anchored_at t p).
Proof. unfold anchored_at. apply _. Defined.

(** The anchor that [annotate] registers: the given tensor, or the sentinel
    constant it creates. *)
Definition annotation_anchor (g : Graph) (uniq : string) (tensor : option Tensor) : Tensor :=
  match tensor with
  | None => tf_constant g uniq _TF_METADATA_EXTRA_ANNOTATION_GLOBAL
  | Some t => t
  end.

(** The character [c] occurs in [s]. *)
Fixpoint occurs (c : ascii) (s : string) : bool :=
  match s with
  | EmptyString => false
  | String c' rest => bool_decide (c' = c) || occurs c rest
  end.

(** [comp] is the final path component of [full]: the part after the last
    ['/'], or all of [full] when it has none. *)
Definition final_path_component (full comp : string) : Prop :=
  occurs "/" comp = false /\
  (full = comp \/ exists pre, full = pre +:+ "/" +:+ comp).

(** The integer domain that the loop gives to a feature, if any. *)
Definition domain_of (tensor_ranges : gmap Tensor (option RunValue * option RunValue))
    (tensor : Feature) : option schema_pb2.IntDomain :=
  values ← feature_values tensor;
  range ← tensor_ranges !! values;
  match IntDomain_init range.1 range.2 true with
  | Ok domain => Some domain
  | Raise _ => None
  end.

(** The annotation list that the loop gives to a feature, if any. *)
Definition annotation_of (tensor_annotations : gmap Tensor (list any_pb2.Any))
    (tensor : Feature) : option (list any_pb2.Any) :=
  values ← feature_values tensor;
  tensor_annotations !! values.

(** Every feature whose value tensor has a range is an int64 feature, so
    that the assertion of the loop holds. *)
Definition ranges_on_int64
    (tensor_ranges : gmap Tensor (option RunValue * option RunValue))
    (items : list (string * Feature)) : Prop :=
  forall key tensor values,
    (key, tensor) ∈ items -> feature_values tensor = Some values ->
    is_Some (tensor_ranges !! values) -> dtype values = tf_int64.

(** Every range that the loop looks up makes an [IntDomain]. *)
Definition ranges_make_domains
    (tensor_ranges : gmap Tensor (option RunValue * option RunValue))
    (items : list (string * Feature)) : Prop :=
  forall key tensor values range,
    (key, tensor) ∈ items -> feature_values tensor = Some values ->
    tensor_ranges !! values = Some range ->
    exists domain, IntDomain_init range.1 range.2 true = Ok domain.

(** The session gives an integer that fits an int64 field for the tensor. *)
Definition int64_bound (session : Session) (t : Tensor) : Prop :=
  exists z, run session t = integer_scalar z /\ fits_int64 z = true.

(** The session, when there is one, gives such an integer for every min and
    max tensor registered in the graph. *)
Definition bounds_resolve_to_int64 (session : option Session) (g : Graph) : Prop :=
  match session with
  | None => True
  | Some session =>
      forall t, t ∈ tft_schema_override_min g \/ t ∈ tft_schema_override_max g ->
                int64_bound session t
  end.

(** A call of one of the two registration functions of the module. *)
Inductive registration :=
| call_set_tensor_schema_override (tensor min_value max_value : PyObject)
| call_annotate (uniq type_url : string) (proto_message : ProtoMessage)
    (tensor : option Tensor).

(** The graph after a call; a call that raises leaves the graph it found. *)
Definition register (g : Graph) (call : registration) : Graph :=
  match call with
  | call_set_tensor_schema_override tensor min_value max_value =>
      (set_tensor_schema_override tensor min_value max_value g).2
  | call_annotate uniq type_url proto_message tensor =>
      annotate uniq type_url proto_message tensor g
  end.

(** The dtype is one of string, int64 and float32. *)
Definition supported_dtype (d : DType) : Prop :=
  d = tf_string \/ d = tf_int64 \/ d = tf_float32.

(** The ranges that the inference works with: the pairs (None, None)
    without a session, the values that the session gives to the min and max
    tensors with one. *)
Definition resolved_ranges (session : option Session)
    (d : gmap Tensor (Tensor * Tensor))
    : gmap Tensor (option RunValue * option RunValue) :=
  match session with
  | None => (fun _ => (None, None)) <$> d
  | Some session => session_run_ranges session d
  end.

(** ** Sample graphs, tensors and sessions *)

Definition t_int (n : string) (shape : TensorShape) : Tensor :=
  mkTensor n tf_int64 shape.

Definition empty_graph : Graph := mkGraph [] [] [] [] [] [] "".

Definition rank1_tensor : Tensor := mkTensor "x:0" tf_int64 (Some [None]).
Definition rank0_tensor : Tensor := mkTensor "s:0" tf_int64 (Some []).

Definition image_tensor : Tensor :=
  mkTensor "image:0" tf_float32 (Some [None; Some 28; Some 28]).

Definition words_sparse : SparseTensor :=
  mkSparseTensor (mkTensor "words/values:0" tf_string (Some [None]))
                 (Some [None; None]).

Definition bad_dense : Feature := Dense (mkTensor "b:0" tf_int32 None).

Definition sparse_ids : SparseTensor :=
  mkSparseTensor (t_int "ids/values:0" (Some [None])) (Some [None; None]).

Definition constant_session : Session :=
  mkSession (fun _ => integer_scalar 0) (fun _ => "serialized").

Definition bucket_tensor : Tensor := t_int "bucketized:0" (Some [None; Some 1]).

Definition scoped_graph : Graph := mkGraph [] [] [] [] [] [] "transform/scale".

Definition min_tensor : Tensor := t_int "min:0" (Some []).
Definition max_tensor : Tensor := t_int "max:0" (Some []).

(** A graph with one override, on [bucket_tensor]. *)
Definition one_override_graph : Graph :=
  mkGraph [bucket_tensor] [min_tensor] [max_tensor] [] [] [] "".


Definition other_tensor : Tensor := t_int "hashed:0" (Some [None; Some 1]).

(** A graph whose annotation collections disagree: two anchors and two
    type-urls, but one payload only. *)
Definition mismatched_annotation_graph : Graph :=
  mkGraph [] [] []
    [bucket_tensor; other_tensor]
    ["type.googleapis.com/A"; "type.googleapis.com/B"]
    [Literal "payload"]
    "".

(** A graph in which [bucket_tensor] was registered twice, the second time
    with the bounds swapped. *)
Definition twice_registered_graph : Graph :=
  mkGraph [bucket_tensor; bucket_tensor] [min_tensor; max_tensor]
          [max_tensor; min_tensor] [] [] [] "".

(** A graph whose override collections disagree. *)
Definition mismatched_override_graph : Graph :=
  mkGraph [bucket_tensor] [] [max_tensor] [] [] [] "".



(** A graph with one annotation on [bucket_tensor] and a global one whose
    payload is deferred. *)
Definition annotated_graph : Graph :=
  mkGraph [bucket_tensor] [min_tensor] [max_tensor]
    [bucket_tensor; mkTensor "tft_schema_override_global_sentinel:0" tf_string (Some [])]
    ["type.googleapis.com/A"; "type.googleapis.com/B"]
    [Literal "payload"; Deferred (mkTensor "proto:0" tf_string (Some []))]
    "".




(** * Properties *)

Example ex_split : str_split "/" "transform/tft_schema_override_global_sentinel_1:0"
  = ["transform"; "tft_schema_override_global_sentinel_1:0"].
Proof. reflexivity. Qed.

Example ex_const : name (tf_constant (mkGraph [] [] [] [] [] [] "a/b") "_1" "x") = "a/b/x_1:0".
Proof. reflexivity. Qed.

(** ** The error monad *)

Lemma bind_Ok {A B} (f : A -> result B) (a : A) : (Ok a ≫= f) = f a.
Proof. reflexivity. Qed.

Lemma bind_Raise {A B} (f : A -> result B) (e : exn) : (Raise e ≫= f) = Raise e.
Proof. reflexivity. Qed.

Lemma bind_Ok_inv {A B} (f : A -> result B) (c : result A) (b : B) :
  (c ≫= f) = Ok b -> exists a, c = Ok a /\ f a = Ok b.
Proof. destruct c as [a|e]; [eauto | discriminate]. Qed.

(** ** Feature-spec inference: the loop over the dictionary *)

Section feature_spec_loop.

(** The first tensor that raises aborts the whole batch with its error. *)
Lemma feature_spec_loop_first_error pre key tensor post e acc :
  Forall (fun kt => exists spec, feature_spec_of_tensor kt.2 = Ok spec) pre ->
  feature_spec_of_tensor tensor = Raise e ->
  feature_spec_loop (pre ++ (key, tensor) :: post) acc = Raise e.
Proof.
  intros Hpre Herr. revert acc.
  induction Hpre as [|[k t] pre [spec Hspec] _ IH]; intros acc; simpl.
  - by rewrite Herr.
  - simpl in Hspec. rewrite Hspec. simpl. apply IH.
Qed.

(** A tensor that raises makes the whole batch raise, wherever it is. *)
Lemma feature_spec_loop_raises items key tensor acc :
  (key, tensor) ∈ items ->
  raises (feature_spec_of_tensor tensor) ->
  raises (feature_spec_loop items acc).
Proof.
  intros Hin [e He]. revert acc.
  induction items as [|[k t] items IH]; intros acc.
  - by apply elem_of_nil in Hin.
  - simpl. destruct (feature_spec_of_tensor t) as [spec|e'] eqn:Ht.
    + simpl. apply IH.
      apply elem_of_cons in Hin as [Heq|Hin]; [|done].
      injection Heq as -> ->. congruence.
    + by exists e'.
Qed.

(** When every tensor has a descriptor the batch has one, and the
    descriptor of each name is the one of its tensor. *)
Lemma feature_spec_loop_ok items acc :
  NoDup items.*1 ->
  Forall (fun kt => exists spec, feature_spec_of_tensor kt.2 = Ok spec) items ->
  exists r, feature_spec_loop items acc = Ok r /\
    (forall key tensor, (key, tensor) ∈ items ->
       Ok <$> r !! key = Some (feature_spec_of_tensor tensor)) /\
    (forall key, key ∉ items.*1 -> r !! key = acc !! key).
Proof.
  intros Hnd Hall. revert acc.
  induction Hall as [|[k t] items [spec Hspec] _ IH]; intros acc.
  - exists acc. split; [done|]. split; [|done].
    intros key tensor Hin. by apply elem_of_nil in Hin.
  - simpl in *. apply NoDup_cons in Hnd as [Hk Hnd].
    destruct (IH Hnd (<[k:=spec]> acc)) as (r & Hr & Hin & Hout).
    exists r. rewrite Hspec. simpl. split; [done|]. split.
    + intros key tensor [Heq|Hmem]%elem_of_cons.
      * injection Heq as -> ->. rewrite (Hout k Hk), lookup_insert_eq.
        simpl. by rewrite Hspec.
      * by apply Hin.
    + intros key Hkey. apply not_elem_of_cons in Hkey as [Hne Hkey].
      rewrite (Hout key Hkey). by rewrite lookup_insert_ne.
Qed.

End feature_spec_loop.

Lemma dtype_supported_cases d :
  dtype_not_supported d = false <-> d = tf_string \/ d = tf_int64 \/ d = tf_float32.
Proof. destruct d; vm_compute; intuition congruence. Qed.

Lemma batch_lookup tensors key tensor spec :
  NoDup tensors.*1 -> all_inferable tensors ->
  (key, tensor) ∈ tensors -> feature_spec_of_tensor tensor = Ok spec ->
  exists r, _feature_spec_from_batched_tensors tensors = Ok r /\ r !! key = Some spec.
Proof.
  intros Hnd Hall Hin Hspec.
  destruct (feature_spec_loop_ok tensors ∅ Hnd Hall) as (r & Hr & Hlook & _).
  exists r. split; [done|].
  specialize (Hlook key tensor Hin). rewrite Hspec in Hlook.
  destruct (r !! key); simpl in Hlook; congruence.
Qed.

Lemma batch_raises tensors key tensor :
  (key, tensor) ∈ tensors -> raises (feature_spec_of_tensor tensor) ->
  raises (_feature_spec_from_batched_tensors tensors).
Proof. apply feature_spec_loop_raises. Qed.

Lemma existsb_is_None_Some (sizes : list nat) :
  existsb is_None (Some <$> sizes) = false.
Proof. induction sizes; [done|]. simpl. done. Qed.

Lemma existsb_is_None_elem (dims : list (option nat)) :
  None ∈ dims -> existsb is_None dims = true.
Proof.
  intros Hin. apply existsb_exists. exists None. split; [|done].
  by apply list_elem_of_In.
Qed.

(** ** Dense tensors *)

(** C2, counterexample: a dense int64 tensor of rank 1 (only the batch
    dimension) is not refused; inference returns a fixed-shape descriptor
    with the empty shape. *)
Lemma C2_rank_one_accepted :
  ndims (get_shape rank1_tensor) = Some 1 /\
  _feature_spec_from_batched_tensors [("x", Dense rank1_tensor)]
    = Ok {["x" := FixedLenFeature [] tf_int64]}.
Proof. split; reflexivity. Qed.

(** C2, amended: a dense tensor of supported dtype needs a rank of at least
    1.  When its rank is unknown or 0 it raises the invalid-shape error
    "must have rank at least 1", and so does every batch that holds it; when
    its rank is 1 it is accepted with the empty fixed shape. *)
Theorem C2_dense_rank_at_least_one (t : Tensor) :
  dtype_not_supported (dtype t) = false ->
  (ndims (get_shape t) = None \/ ndims (get_shape t) = Some 0 ->
     feature_spec_of_tensor (Dense t) = Raise (ValueError invalid_shape_FixedLen_rank) /\
     invalid_shape_error (ValueError invalid_shape_FixedLen_rank) = true /\
     (forall tensors key, (key, Dense t) ∈ tensors ->
        raises (_feature_spec_from_batched_tensors tensors)) /\
     (forall key, _feature_spec_from_batched_tensors [(key, Dense t)]
        = Raise (ValueError invalid_shape_FixedLen_rank))) /\
  (ndims (get_shape t) = Some 1 ->
     feature_spec_of_tensor (Dense t) = Ok (FixedLenFeature [] (dtype t))).
Proof.
  intros Hd. split.
  - intros Hrank.
    assert (Hone : feature_spec_of_tensor (Dense t)
                   = Raise (ValueError invalid_shape_FixedLen_rank)).
    { unfold feature_spec_of_tensor. simpl. rewrite Hd.
      rewrite bool_decide_eq_true_2; [done|].
      destruct Hrank as [-> | ->]; set_solver. }
    split; [done|]. split; [done|]. split.
    + intros tensors key Hin. eapply batch_raises; [done|]. by eexists.
    + intros key. unfold _feature_spec_from_batched_tensors. simpl. by rewrite Hone.
  - intros Hrank. unfold feature_spec_of_tensor. simpl. rewrite Hd.
    destruct (get_shape t) as [[|b [|b' dims]]|] eqn:Hs; simpl in Hrank; try discriminate.
    reflexivity.
Qed.

Lemma C2_dense_rank_at_least_one_witness :
  dtype_not_supported (dtype rank0_tensor) = false /\
  (ndims (get_shape rank0_tensor) = None \/ ndims (get_shape rank0_tensor) = Some 0) /\
  feature_spec_of_tensor (Dense rank0_tensor)
    = Raise (ValueError invalid_shape_FixedLen_rank).
Proof.
  split; [reflexivity|]. split; [right; reflexivity|].
  apply (C2_dense_rank_at_least_one rank0_tensor); [reflexivity|right; reflexivity].
Defined.

Lemma dense_known_dims (t : Tensor) (batch : option nat) (sizes : list nat) :
  dtype_not_supported (dtype t) = false ->
  get_shape t = Some (batch :: (Some <$> sizes)) ->
  feature_spec_of_tensor (Dense t) = Ok (FixedLenFeature (Some <$> sizes) (dtype t)).
Proof.
  intros Hd Hs. unfold feature_spec_of_tensor. simpl. rewrite Hd, Hs. simpl.
  by rewrite drop_0, existsb_is_None_Some.
Qed.

Lemma dense_unknown_dim (t : Tensor) (batch : option nat) (dims : list (option nat)) :
  dtype_not_supported (dtype t) = false ->
  get_shape t = Some (batch :: dims) -> None ∈ dims ->
  feature_spec_of_tensor (Dense t) = Raise (ValueError invalid_shape_FixedLen_dims).
Proof.
  intros Hd Hs Hin. unfold feature_spec_of_tensor. simpl. rewrite Hd, Hs. simpl.
  by rewrite drop_0, existsb_is_None_elem.
Qed.

(** C3: a dense tensor of supported dtype whose dimensions after the batch
    dimension are all known gets the fixed-shape descriptor of exactly these
    dimensions and of its dtype, in every batch that can be inferred; a
    tensor that differs only in the batch dimension gets the same
    descriptor; an unknown dimension after the batch dimension raises the
    invalid-shape error, for the whole batch. *)
Theorem C3_dense_fixed_shape (t : Tensor) (batch : option nat) (dims : list (option nat)) :
  dtype_not_supported (dtype t) = false ->
  get_shape t = Some (batch :: dims) ->
  (forall sizes : list nat, dims = Some <$> sizes ->
     feature_spec_of_tensor (Dense t) = Ok (FixedLenFeature (Some <$> sizes) (dtype t)) /\
     (forall tensors key, NoDup tensors.*1 -> all_inferable tensors ->
        (key, Dense t) ∈ tensors ->
        exists r, _feature_spec_from_batched_tensors tensors = Ok r /\
                  r !! key = Some (FixedLenFeature (Some <$> sizes) (dtype t))) /\
     (forall (n' : string) (batch' : option nat),
        feature_spec_of_tensor (Dense (mkTensor n' (dtype t) (Some (batch' :: dims))))
        = feature_spec_of_tensor (Dense t))) /\
  (None ∈ dims ->
     feature_spec_of_tensor (Dense t) = Raise (ValueError invalid_shape_FixedLen_dims) /\
     invalid_shape_error (ValueError invalid_shape_FixedLen_dims) = true /\
     (forall tensors key, (key, Dense t) ∈ tensors ->
        raises (_feature_spec_from_batched_tensors tensors))).
Proof.
  intros Hd Hs. split.
  - intros sizes ->.
    pose proof (dense_known_dims t batch sizes Hd Hs) as Hone.
    split; [done|]. split.
    + intros tensors key Hnd Hall Hin. by eapply batch_lookup.
    + intros n' batch'. rewrite Hone.
      by apply (dense_known_dims (mkTensor n' (dtype t) _) batch').
  - intros Hin.
    pose proof (dense_unknown_dim t batch dims Hd Hs Hin) as Hone.
    split; [done|]. split; [done|].
    intros tensors key Hmem. eapply batch_raises; [done|]. by eexists.
Qed.

Lemma C3_dense_fixed_shape_witness :
  dtype_not_supported (dtype image_tensor) = false /\
  get_shape image_tensor = Some (None :: [Some 28; Some 28]) /\
  feature_spec_of_tensor (Dense image_tensor)
    = Ok (FixedLenFeature [Some 28; Some 28] tf_float32).
Proof.
  split; [reflexivity|]. split; [reflexivity|].
  apply (proj1 (C3_dense_fixed_shape image_tensor None [Some 28; Some 28]
                  eq_refl eq_refl) [28; 28] eq_refl).
Defined.

(** ** Sparse tensors *)

(** C4: a sparse tensor of supported dtype gets the variable-length
    descriptor of its dtype when its rank is 2, in every batch that can be
    inferred, and raises the invalid-shape error "must have rank 2" for any
    other rank, the unknown rank included. *)
Theorem C4_sparse_rank_two (s : SparseTensor) :
  dtype_not_supported (dtype (values s)) = false ->
  (ndims (dense_shape s) = Some 2 ->
     feature_spec_of_tensor (Sparse s) = Ok (VarLenFeature (dtype (values s))) /\
     (forall tensors key, NoDup tensors.*1 -> all_inferable tensors ->
        (key, Sparse s) ∈ tensors ->
        exists r, _feature_spec_from_batched_tensors tensors = Ok r /\
                  r !! key = Some (VarLenFeature (dtype (values s))))) /\
  (ndims (dense_shape s) <> Some 2 ->
     feature_spec_of_tensor (Sparse s) = Raise (ValueError invalid_shape_VarLen_rank) /\
     invalid_shape_error (ValueError invalid_shape_VarLen_rank) = true /\
     (forall tensors key, (key, Sparse s) ∈ tensors ->
        raises (_feature_spec_from_batched_tensors tensors))).
Proof.
  intros Hd. split; intros Hrank.
  - assert (Hone : feature_spec_of_tensor (Sparse s)
                   = Ok (VarLenFeature (dtype (values s)))).
    { unfold feature_spec_of_tensor. simpl. rewrite Hd.
      by rewrite bool_decide_eq_false_2 by (intros H; by apply H). }
    split; [done|]. intros tensors key Hnd Hall Hin. by eapply batch_lookup.
  - assert (Hone : feature_spec_of_tensor (Sparse s)
                   = Raise (ValueError invalid_shape_VarLen_rank)).
    { unfold feature_spec_of_tensor. simpl. rewrite Hd.
      by rewrite bool_decide_eq_true_2. }
    split; [done|]. split; [done|].
    intros tensors key Hmem. eapply batch_raises; [done|]. by eexists.
Qed.

Lemma C4_sparse_rank_two_witness :
  dtype_not_supported (dtype (values words_sparse)) = false /\
  ndims (dense_shape words_sparse) = Some 2 /\
  feature_spec_of_tensor (Sparse words_sparse) = Ok (VarLenFeature tf_string).
Proof.
  split; [reflexivity|]. split; [reflexivity|].
  apply (C4_sparse_rank_two words_sparse); reflexivity.
Defined.

(** ** The dtype check *)

(** C5: a dense or sparse tensor whose dtype is not string, int64 or float32
    raises the invalid-dtype error whatever its shape, valid or not: the
    dtype is checked before the class and the shape of the tensor.  A batch
    whose earlier tensors are accepted raises this very error, and any batch
    that holds the tensor raises. *)
Theorem C5_invalid_dtype_first (tensor : Feature) :
  (exists t, tensor = Dense t) \/ (exists s, tensor = Sparse s) ->
  feature_dtype tensor <> tf_string ->
  feature_dtype tensor <> tf_int64 ->
  feature_dtype tensor <> tf_float32 ->
  feature_spec_of_tensor tensor = Raise (ValueError invalid_dtype) /\
  invalid_shape_error (ValueError invalid_dtype) = false /\
  (forall pre key post, all_inferable pre ->
     _feature_spec_from_batched_tensors (pre ++ (key, tensor) :: post)
     = Raise (ValueError invalid_dtype)) /\
  (forall tensors key, (key, tensor) ∈ tensors ->
     raises (_feature_spec_from_batched_tensors tensors)).
Proof.
  intros _ H1 H2 H3.
  assert (Hd : dtype_not_supported (feature_dtype tensor) = true).
  { destruct (dtype_not_supported (feature_dtype tensor)) eqn:E; [done|].
    apply dtype_supported_cases in E. tauto. }
  assert (Hone : feature_spec_of_tensor tensor = Raise (ValueError invalid_dtype)).
  { unfold feature_spec_of_tensor. by rewrite Hd. }
  split; [done|]. split; [done|]. split.
  - intros pre key post Hpre. by apply feature_spec_loop_first_error.
  - intros tensors key Hmem. eapply batch_raises; [done|]. by eexists.
Qed.

Lemma C5_invalid_dtype_first_witness :
  ((exists t, bad_dense = Dense t) \/ (exists s, bad_dense = Sparse s)) /\
  feature_dtype bad_dense <> tf_string /\
  feature_dtype bad_dense <> tf_int64 /\
  feature_dtype bad_dense <> tf_float32 /\
  feature_spec_of_tensor bad_dense = Raise (ValueError invalid_dtype).
Proof.
  assert (Hk : (exists t, bad_dense = Dense t) \/ (exists s, bad_dense = Sparse s)).
  { left. eexists. reflexivity. }
  split; [exact Hk|].
  split; [discriminate|]. split; [discriminate|]. split; [discriminate|].
  apply (C5_invalid_dtype_first bad_dense Hk); discriminate.
Defined.

(** ** Registration of overrides *)

Lemma set_tensor_schema_override_Ok tensor min_value max_value g g' :
  set_tensor_schema_override tensor min_value max_value g = (Ok tt, g') ->
  exists t mn mx,
    tensor = a_Tensor t /\ dtype t = tf_int64 /\
    min_value = a_Tensor mn /\ max_value = a_Tensor mx /\ g' = add_override t mn mx g.
Proof.
  unfold set_tensor_schema_override. intros H.
  destruct tensor as [t| | | |]; try discriminate.
  case_bool_decide as Hd; [discriminate|].
  destruct min_value as [mn| | | |]; try discriminate.
  destruct max_value as [mx| | | |]; try discriminate.
  injection H as <-. exists t, mn, mx.
  repeat split; try done; by destruct (decide (dtype t = tf_int64)).
Qed.

(** C6: a call of [set_tensor_schema_override] whose [tensor] is no dense
    tensor or has a dtype other than int64, or whose [min_value] or
    [max_value] is no tensor, raises a [ValueError] and leaves the graph as
    it was, so that none of the three collections grows; a call that meets
    the preconditions appends exactly one entry to each of the three. *)
Theorem C6_override_registration (tensor min_value max_value : PyObject) (g : Graph) :
  (~ valid_override_arguments tensor min_value max_value ->
     exists msg, set_tensor_schema_override tensor min_value max_value g
                 = (Raise (ValueError msg), g)) /\
  (forall t mn mx,
     tensor = a_Tensor t -> dtype t = tf_int64 ->
     min_value = a_Tensor mn -> max_value = a_Tensor mx ->
     exists g', set_tensor_schema_override tensor min_value max_value g = (Ok tt, g') /\
       tft_schema_override_tensor g' = tft_schema_override_tensor g ++ [t] /\
       tft_schema_override_min g' = tft_schema_override_min g ++ [mn] /\
       tft_schema_override_max g' = tft_schema_override_max g ++ [mx] /\
       length (tft_schema_override_tensor g') = S (length (tft_schema_override_tensor g)) /\
       length (tft_schema_override_min g') = S (length (tft_schema_override_min g)) /\
       length (tft_schema_override_max g') = S (length (tft_schema_override_max g))).
Proof.
  split.
  - intros Hinv. unfold set_tensor_schema_override.
    destruct tensor as [t| | | |]; try by eexists.
    case_bool_decide as Hd; [by eexists|].
    destruct min_value as [mn| | | |]; try by eexists.
    destruct max_value as [mx| | | |]; try by eexists.
    exfalso. apply Hinv. exists t, mn, mx.
    repeat split; try done; by destruct (decide (dtype t = tf_int64)).
  - intros t mn mx -> Hd -> ->. exists (add_override t mn mx g).
    unfold set_tensor_schema_override.
    rewrite bool_decide_eq_false_2 by (intros H; by apply H).
    simpl. rewrite !length_app. simpl. repeat split; try done; lia.
Qed.

Lemma C6_override_registration_witness :
  ~ valid_override_arguments (a_SparseTensor sparse_ids) (a_int 0) (a_int 9) /\
  exists msg,
    set_tensor_schema_override (a_SparseTensor sparse_ids) (a_int 0) (a_int 9) empty_graph
    = (Raise (ValueError msg), empty_graph).
Proof.
  assert (Hinv : ~ valid_override_arguments (a_SparseTensor sparse_ids) (a_int 0) (a_int 9)).
  { intros (t & mn & mx & Ht & _). discriminate Ht. }
  split; [exact Hinv|].
  apply (C6_override_registration (a_SparseTensor sparse_ids) (a_int 0) (a_int 9)
           empty_graph), Hinv.
Defined.

(** The registration functions keep the collections consistent. *)
Lemma empty_graph_consistent :
  overrides_consistent empty_graph /\ annotations_consistent empty_graph.
Proof. repeat split; simpl; auto. Qed.

Lemma set_tensor_schema_override_consistent tensor min_value max_value g :
  overrides_consistent g ->
  overrides_consistent (set_tensor_schema_override tensor min_value max_value g).2.
Proof.
  intros Hg.
  destruct (set_tensor_schema_override tensor min_value max_value g) as [[[]|e] g'] eqn:E.
  - apply set_tensor_schema_override_Ok in E as (t & mn & mx & _ & Hd & _ & _ & ->).
    destruct Hg as (H1 & H2 & H3). unfold overrides_consistent. simpl.
    rewrite !length_app. simpl. repeat split; try lia.
    apply Forall_app. split; [done|]. by constructor.
  - simpl. revert E. unfold set_tensor_schema_override.
    repeat case_match; intros ?; simplify_eq; done.
Qed.

Lemma annotate_consistent uniq type_url proto_message tensor g :
  (overrides_consistent g -> overrides_consistent (annotate uniq type_url proto_message tensor g)) /\
  (annotations_consistent g -> annotations_consistent (annotate uniq type_url proto_message tensor g)).
Proof.
  split.
  - intros H. exact H.
  - intros [H1 H2]. unfold annotations_consistent. simpl.
    rewrite !length_app. simpl. lia.
Qed.

(** ** Dictionaries built from items *)

Section dict.
Context `{Countable K} {V : Type}.
Implicit Types (items pre post : list (K * V)) (m : gmap K V) (k : K) (v : V).

Let ins := fun (d : gmap K V) (kv : K * V) => <[kv.1 := kv.2]> d.

Lemma foldl_insert_notin items m k :
  k ∉ items.*1 -> foldl ins m items !! k = m !! k.
Proof.
  revert m. induction items as [|[k' v'] items IH]; intros m Hk; [done|].
  simpl in *. apply not_elem_of_cons in Hk as [Hne Hk].
  rewrite IH by done. unfold ins. simpl. by rewrite lookup_insert_ne.
Qed.

Lemma foldl_insert_last pre k v post m :
  k ∉ post.*1 -> foldl ins m (pre ++ (k, v) :: post) !! k = Some v.
Proof.
  intros Hk. rewrite foldl_app. simpl.
  rewrite foldl_insert_notin by done. unfold ins at 2. simpl.
  apply lookup_insert_eq.
Qed.

(** The pair found under a key is the last item with that key. *)
Lemma dict_lookup_last pre k v post :
  k ∉ post.*1 -> dict (pre ++ (k, v) :: post) !! k = Some v.
Proof. apply foldl_insert_last. Qed.

Lemma dict_lookup_notin items k :
  k ∉ items.*1 -> dict items !! k = None.
Proof. intros Hk. unfold dict. by rewrite (foldl_insert_notin items ∅ k Hk). Qed.

Lemma last_occurrence items k :
  k ∈ items.*1 ->
  exists pre v post, items = pre ++ (k, v) :: post /\ k ∉ post.*1.
Proof.
  induction items as [|[k' v'] items IH]; intros Hk.
  - by apply elem_of_nil in Hk.
  - destruct (decide (k ∈ items.*1)) as [Hin|Hout].
    + destruct (IH Hin) as (pre & v & post & -> & Hpost).
      by exists ((k', v') :: pre), v, post.
    + simpl in Hk. apply elem_of_cons in Hk as [->|Hk]; [|done].
      by exists [], v', items.
Qed.

(** The keys of the dictionary are the keys of the items. *)
Lemma dict_is_Some items k : is_Some (dict items !! k) <-> k ∈ items.*1.
Proof.
  split.
  - intros Hs. destruct (decide (k ∈ items.*1)) as [|Hout]; [done|].
    rewrite dict_lookup_notin in Hs by done. by destruct Hs.
  - intros (pre & v & post & -> & Hpost)%last_occurrence.
    rewrite dict_lookup_last by done. by eexists.
Qed.
End dict.

Lemma overrides_Ok (g : Graph) :
  length (tft_schema_override_tensor g) = length (tft_schema_override_min g) ->
  length (tft_schema_override_tensor g) = length (tft_schema_override_max g) ->
  _get_tensor_schema_overrides g
  = Ok (dict (zip (tft_schema_override_tensor g)
                  (zip (tft_schema_override_min g) (tft_schema_override_max g)))).
Proof.
  intros H1 H2. unfold _get_tensor_schema_overrides.
  by rewrite !bool_decide_eq_true_2.
Qed.

(** Unequal lengths of the override collections are fatal, for the lookup
    and for the inference that starts with it. *)
Lemma overrides_unequal_lengths_fatal (g : Graph) :
  length (tft_schema_override_tensor g) <> length (tft_schema_override_min g) \/
  length (tft_schema_override_tensor g) <> length (tft_schema_override_max g) ->
  _get_tensor_schema_overrides g = Raise AssertionError /\
  forall features session, infer_feature_schema features g session = Raise AssertionError.
Proof.
  intros Hne.
  assert (Hr : _get_tensor_schema_overrides g = Raise AssertionError).
  { unfold _get_tensor_schema_overrides.
    destruct (decide (length (tft_schema_override_tensor g)
                      = length (tft_schema_override_min g))) as [E1|E1].
    - rewrite (bool_decide_eq_true_2 _ E1). simpl.
      destruct Hne as [?|E2]; [done|]. by rewrite (bool_decide_eq_false_2 _ E2).
    - by rewrite (bool_decide_eq_false_2 _ E1). }
  split; [done|]. intros features session.
  unfold infer_feature_schema. by rewrite Hr.
Qed.

Lemma zip_fst_length {A B} (l : list A) (k : list B) :
  length l = length k -> (zip l k).*1 = l.
Proof. intros Hlen. apply fst_zip. lia. Qed.

(** With consistent collections the overrides are keyed by exactly the
    registered tensors, and a tensor maps to the bounds of its last
    registration. *)
Lemma overrides_lookup (g : Graph) (d : gmap Tensor (Tensor * Tensor)) :
  length (tft_schema_override_tensor g) = length (tft_schema_override_min g) ->
  length (tft_schema_override_tensor g) = length (tft_schema_override_max g) ->
  _get_tensor_schema_overrides g = Ok d ->
  (forall t, is_Some (d !! t) <-> t ∈ tft_schema_override_tensor g) /\
  (forall i t mn mx,
     tft_schema_override_tensor g !! i = Some t ->
     tft_schema_override_min g !! i = Some mn ->
     tft_schema_override_max g !! i = Some mx ->
     (forall j, i < j -> tft_schema_override_tensor g !! j <> Some t) ->
     d !! t = Some (mn, mx)).
Proof.
  intros H1 H2 Hd. rewrite overrides_Ok in Hd by done. injection Hd as <-.
  set (items := zip _ _).
  assert (Hkeys : items.*1 = tft_schema_override_tensor g).
  { apply zip_fst_length. rewrite length_zip. lia. }
  split.
  - intros t. by rewrite dict_is_Some, Hkeys.
  - intros i t mn mx Ht Hmn Hmx Hlast.
    assert (Hi : items !! i = Some (t, (mn, mx))).
    { unfold items. rewrite lookup_zip_with, Ht. simpl.
      rewrite lookup_zip_with, Hmn. simpl. by rewrite Hmx. }
    rewrite <- (take_drop_middle _ _ _ Hi).
    apply dict_lookup_last.
    intros (j & Hj)%list_elem_of_lookup.
    rewrite list_lookup_fmap, lookup_drop in Hj.
    apply (Hlast (S i + j)); [lia|].
    rewrite <- Hkeys, list_lookup_fmap.
    destruct (items !! (S i + j)) as [[t' mm]|]; simpl in *; congruence.
Qed.

(** ** Resolution of annotations *)

Lemma annotations_step_dropped session acc entry :
  surviving session entry = None -> annotations_step session acc entry = acc.
Proof.
  destruct entry as [tensor [type_url proto_value]].
  unfold surviving, annotations_step. simpl. intros Hs.
  case_decide as He; [|discriminate].
  by rewrite bool_decide_eq_true_2.
Qed.

Lemma annotations_step_kept session acc entry tensor annotation :
  surviving session entry = Some (tensor, annotation) ->
  annotations_step session acc entry
  = if is_global_anchor tensor then (acc.1, acc.2 ++ [annotation])
    else (defaultdict_append acc.1 tensor annotation, acc.2).
Proof.
  destruct entry as [tensor' [type_url proto_value]].
  unfold surviving, annotations_step. simpl. intros Hs.
  case_decide as He; [discriminate|]. injection Hs as -> <-.
  by rewrite bool_decide_eq_false_2.
Qed.

(** The loop, started from any accumulator, adds the surviving records:
    those with a global anchor at the end of the global list, the others at
    the end of the list of their anchor. *)
Lemma annotations_loop session entries ta0 ga0 :
  let out := foldl (annotations_step session) (ta0, ga0) entries in
  let kept := omap (surviving session) entries in
  out.2 = ga0 ++ (filter (fun p => is_global_anchor p.1 = true) kept).*2 /\
  (forall t, default [] (out.1 !! t)
             = default [] (ta0 !! t) ++ (filter (anchored_at t) kept).*2) /\
  (forall t, out.1 !! t = None <->
             ta0 !! t = None /\ filter (anchored_at t) kept = []).
Proof.
  revert ta0 ga0. induction entries as [|entry entries IH]; intros ta0 ga0.
  - simpl. rewrite !app_nil_r. split; [done|]. split; [intros t; by rewrite app_nil_r|].
    intros t. tauto.
  - cbn zeta. simpl foldl. simpl omap.
    destruct (surviving session entry) as [[tensor annotation]|] eqn:Hs.
    + rewrite (annotations_step_kept _ _ _ _ _ Hs). simpl fst. simpl snd.
      destruct (is_global_anchor tensor) eqn:Hg.
      * destruct (IH ta0 (ga0 ++ [annotation])) as (IH1 & IH2 & IH3).
        split; [|split].
        -- rewrite IH1. rewrite filter_cons_True by done.
           simpl. by rewrite <- app_assoc.
        -- intros t. rewrite IH2. rewrite (filter_cons_False (anchored_at t)); [done|].
           unfold anchored_at. simpl. intros [? _]. congruence.
        -- intros t. rewrite IH3. rewrite (filter_cons_False (anchored_at t)); [done|].
           unfold anchored_at. simpl. intros [? _]. congruence.
      * destruct (IH (defaultdict_append ta0 tensor annotation) ga0) as (IH1 & IH2 & IH3).
        split; [|split].
        -- rewrite IH1. rewrite filter_cons_False; [done|]. simpl. congruence.
        -- intros t. rewrite IH2. unfold defaultdict_append.
           destruct (decide (tensor = t)) as [->|Hne].
           ++ rewrite lookup_insert_eq. simpl.
              rewrite (filter_cons_True (anchored_at t)) by done.
              simpl. by rewrite <- app_assoc.
           ++ rewrite lookup_insert_ne by done.
              rewrite (filter_cons_False (anchored_at t)); [done|].
              unfold anchored_at. simpl. tauto.
        -- intros t. rewrite IH3. unfold defaultdict_append.
           destruct (decide (tensor = t)) as [->|Hne].
           ++ rewrite lookup_insert_eq.
              rewrite (filter_cons_True (anchored_at t)) by done.
              split; intros [? ?]; discriminate.
           ++ rewrite lookup_insert_ne by done.
              rewrite (filter_cons_False (anchored_at t)); [done|].
              unfold anchored_at. simpl. tauto.
    + rewrite (annotations_step_dropped _ _ _ Hs). apply IH.
Qed.

(** [_get_schema_annotations] as a whole. *)
Lemma get_schema_annotations_spec (g : Graph) (session : Session) :
  (_get_schema_annotations g session).2
  = (filter (fun p => is_global_anchor p.1 = true) (resolved_annotations session g)).*2 /\
  (forall t, default [] ((_get_schema_annotations g session).1 !! t)
             = (filter (anchored_at t) (resolved_annotations session g)).*2) /\
  (forall t, (_get_schema_annotations g session).1 !! t = None <->
             filter (anchored_at t) (resolved_annotations session g) = []).
Proof.
  destruct (annotations_loop session (registered_annotations g) ∅ []) as (H1 & H2 & H3).
  unfold _get_schema_annotations. fold (registered_annotations g).
  split; [exact H1|]. split.
  - intros t. rewrite (H2 t). by rewrite lookup_empty.
  - intros t. rewrite (H3 t). rewrite lookup_empty. tauto.
Qed.

Lemma registered_annotations_annotate g uniq type_url proto_message tensor :
  annotations_consistent g ->
  registered_annotations (annotate uniq type_url proto_message tensor g)
  = registered_annotations g
    ++ [(annotation_anchor g uniq tensor, (type_url, proto_message))].
Proof.
  intros [H1 H2]. unfold registered_annotations, annotate. simpl.
  rewrite (zip_with_app pair (tft_schema_override_annotation_type g) [type_url]) by lia.
  rewrite zip_with_app by (rewrite length_zip_with; lia).
  by destruct tensor.
Qed.

Lemma get_schema_annotations_annotate g session uniq type_url proto_message tensor :
  annotations_consistent g ->
  _get_schema_annotations (annotate uniq type_url proto_message tensor g) session
  = annotations_step session (_get_schema_annotations g session)
      (annotation_anchor g uniq tensor, (type_url, proto_message)).
Proof.
  intros Hg. unfold _get_schema_annotations.
  fold (registered_annotations (annotate uniq type_url proto_message tensor g)).
  fold (registered_annotations g).
  rewrite registered_annotations_annotate by done.
  by rewrite foldl_app.
Qed.

(** C8: with an execution context, registering one more annotation whose
    resolved payload is empty changes nothing in what the resolution
    returns; registering one whose resolved payload is not empty adds
    exactly one record, made of the registered type-url and the resolved
    bytes, at the end of the global list or at the end of the list of its
    anchor.  Over the whole graph, the global list and the list of each
    anchor are the records of the surviving annotations in registration
    order. *)
Theorem C8_annotation_resolution (g : Graph) (session : Session)
    (uniq type_url : string) (proto_message : ProtoMessage) (tensor : option Tensor) :
  annotations_consistent g ->
  (resolve_proto session proto_message = EmptyString ->
     _get_schema_annotations (annotate uniq type_url proto_message tensor g) session
     = _get_schema_annotations g session) /\
  (resolve_proto session proto_message <> EmptyString ->
     is_global_anchor (annotation_anchor g uniq tensor) = true ->
     _get_schema_annotations (annotate uniq type_url proto_message tensor g) session
     = ((_get_schema_annotations g session).1,
        (_get_schema_annotations g session).2
          ++ [any_pb2.mkAny type_url (resolve_proto session proto_message)])) /\
  (resolve_proto session proto_message <> EmptyString ->
     is_global_anchor (annotation_anchor g uniq tensor) = false ->
     _get_schema_annotations (annotate uniq type_url proto_message tensor g) session
     = (<[annotation_anchor g uniq tensor :=
            default [] ((_get_schema_annotations g session).1
                          !! annotation_anchor g uniq tensor)
            ++ [any_pb2.mkAny type_url (resolve_proto session proto_message)]]>
          (_get_schema_annotations g session).1,
        (_get_schema_annotations g session).2)) /\
  (_get_schema_annotations g session).2
  = (filter (fun p => is_global_anchor p.1 = true) (resolved_annotations session g)).*2 /\
  (forall t, default [] ((_get_schema_annotations g session).1 !! t)
             = (filter (anchored_at t) (resolved_annotations session g)).*2) /\
  (forall t, (_get_schema_annotations g session).1 !! t = None <->
             filter (anchored_at t) (resolved_annotations session g) = []).
Proof.
  intros Hg.
  pose proof (get_schema_annotations_annotate g session uniq type_url
                proto_message tensor Hg) as Hstep.
  split; [|split; [|split]].
  - intros He. rewrite Hstep. apply annotations_step_dropped.
    unfold surviving. simpl. by rewrite decide_True.
  - intros Hne Hglobal. rewrite Hstep.
    rewrite (annotations_step_kept _ _ _ (annotation_anchor g uniq tensor)
               (any_pb2.mkAny type_url (resolve_proto session proto_message))).
    + by rewrite Hglobal.
    + unfold surviving. simpl. by rewrite decide_False.
  - intros Hne Hlocal. rewrite Hstep.
    rewrite (annotations_step_kept _ _ _ (annotation_anchor g uniq tensor)
               (any_pb2.mkAny type_url (resolve_proto session proto_message))).
    + by rewrite Hlocal.
    + unfold surviving. simpl. by rewrite decide_False.
  - apply get_schema_annotations_spec.
Qed.

Lemma C8_annotation_resolution_witness :
  annotations_consistent empty_graph /\
  resolve_proto constant_session (Literal "") = EmptyString /\
  _get_schema_annotations
    (annotate "" "type.googleapis.com/Boundaries" (Literal "") (Some bucket_tensor)
       empty_graph) constant_session
  = _get_schema_annotations empty_graph constant_session.
Proof.
  assert (Hg : annotations_consistent empty_graph) by (split; reflexivity).
  split; [exact Hg|]. split; [reflexivity|].
  apply (C8_annotation_resolution empty_graph constant_session ""
           "type.googleapis.com/Boundaries" (Literal "") (Some bucket_tensor) Hg).
  reflexivity.
Defined.

(** ** Names and their final path component *)

Lemma occurs_app c a b : occurs c (a +:+ b) = occurs c a || occurs c b.
Proof.
  induction a as [|c' a IH]; [done|]. simpl. rewrite IH. by rewrite orb_assoc.
Qed.

Lemma str_split_nonempty sep s : str_split sep s <> [].
Proof.
  destruct s as [|c s]; simpl; [done|].
  case_bool_decide; [done|]. by destruct (str_split sep s).
Qed.

Lemma str_split_no_sep sep s : occurs sep s = false -> str_split sep s = [s].
Proof.
  induction s as [|c s IH]; [done|]. simpl.
  intros [Hc Hs]%orb_false_iff. rewrite Hc, (IH Hs). done.
Qed.

Lemma str_split_app sep pre rest :
  str_split sep (pre +:+ String sep rest) = str_split sep pre ++ str_split sep rest.
Proof.
  induction pre as [|c pre IH]; simpl.
  - by rewrite bool_decide_eq_true_2.
  - rewrite IH. case_bool_decide; [done|].
    pose proof (str_split_nonempty sep pre).
    by destruct (str_split sep pre).
Qed.

Lemma last_item_app l x : last_item (l ++ [x]) = x.
Proof. unfold last_item. by rewrite last_snoc. Qed.

(** [name.split('/')[-1]] is the final path component of the name. *)
Lemma split_last_final_component full comp :
  final_path_component full comp -> last_item (str_split "/" full) = comp.
Proof.
  intros [Hno [->|[pre ->]]].
  - by rewrite str_split_no_sep.
  - change ("/" +:+ comp) with (String "/" comp).
    rewrite str_split_app, (str_split_no_sep _ comp Hno).
    apply last_item_app.
Qed.

Lemma final_path_component_exists full : exists comp, final_path_component full comp.
Proof.
  induction full as [|c full [comp [Hno Hcomp]]].
  - exists EmptyString. split; [done|]. by left.
  - destruct Hcomp as [->|[pre ->]].
    + destruct (decide (c = "/"%char)) as [->|Hc].
      * exists comp. split; [done|]. right. by exists EmptyString.
      * exists (String c comp). split; [|by left].
        simpl. by rewrite bool_decide_eq_false_2.
    + exists comp. split; [done|]. right. by exists (String c pre).
Qed.

Lemma final_path_component_unique full comp comp' :
  final_path_component full comp -> final_path_component full comp' -> comp = comp'.
Proof.
  intros H1%split_last_final_component H2%split_last_final_component. congruence.
Qed.

Lemma prefix_append a b : String.prefix a (a +:+ b) = true.
Proof.
  induction a as [|c a IH]; simpl; [by destruct b|].
  by destruct (ascii_dec c c).
Qed.

Lemma append_assoc a b c : (a +:+ b) +:+ c = a +:+ b +:+ c.
Proof.
  induction a as [|x a IH]; [done|].
  change (String x ((a +:+ b) +:+ c) = String x (a +:+ b +:+ c)).
  by rewrite IH.
Qed.

(** The sentinel constant that [annotate] creates has a final path component
    that starts with the reserved name, under every name scope. *)
Lemma sentinel_final_component g uniq :
  occurs "/" uniq = false ->
  final_path_component
    (name (tf_constant g uniq _TF_METADATA_EXTRA_ANNOTATION_GLOBAL))
    (_TF_METADATA_EXTRA_ANNOTATION_GLOBAL +:+ uniq +:+ ":0").
Proof.
  intros Hu. split.
  - rewrite !occurs_app, Hu. reflexivity.
  - unfold tf_constant. simpl. case_bool_decide.
    + by left.
    + right. exists (name_stack g). by rewrite append_assoc.
Qed.

(** C9: the resolution treats an annotation as global exactly when the final
    path component of its anchor's name, the part after the last ['/'],
    starts with the reserved sentinel name; every name has one such
    component.  The global list of the resolution is made of the surviving
    annotations with such an anchor, and the others are listed under their
    anchor.  The anchor that [annotate] creates when no tensor is given is
    global under every name scope of the graph, so that its annotation, when
    it survives, is added to the global list and to no feature. *)
Theorem C9_global_classification (g : Graph) (session : Session) (uniq : string) :
  occurs "/" uniq = false ->
  (forall tensor comp, final_path_component (name tensor) comp ->
     is_global_anchor tensor = String.prefix _TF_METADATA_EXTRA_ANNOTATION_GLOBAL comp) /\
  (forall tensor, exists comp, final_path_component (name tensor) comp) /\
  (_get_schema_annotations g session).2
  = (filter (fun p => is_global_anchor p.1 = true) (resolved_annotations session g)).*2 /\
  (forall t, default [] ((_get_schema_annotations g session).1 !! t)
             = (filter (fun p => is_global_anchor p.1 = false /\ p.1 = t)
                  (resolved_annotations session g)).*2) /\
  is_global_anchor (annotation_anchor g uniq None) = true /\
  (forall type_url proto_message,
     annotations_consistent g ->
     resolve_proto session proto_message <> EmptyString ->
     _get_schema_annotations (annotate uniq type_url proto_message None g) session
     = ((_get_schema_annotations g session).1,
        (_get_schema_annotations g session).2
          ++ [any_pb2.mkAny type_url (resolve_proto session proto_message)])).
Proof.
  intros Hu.
  assert (Hcls : forall tensor comp, final_path_component (name tensor) comp ->
            is_global_anchor tensor
            = String.prefix _TF_METADATA_EXTRA_ANNOTATION_GLOBAL comp).
  { intros tensor comp Hc. unfold is_global_anchor.
    by rewrite (split_last_final_component _ _ Hc). }
  assert (Hsent : is_global_anchor (annotation_anchor g uniq None) = true).
  { unfold annotation_anchor.
    rewrite (Hcls _ _ (sentinel_final_component g uniq Hu)). apply prefix_append. }
  split; [exact Hcls|].
  split; [intros tensor; apply final_path_component_exists|].
  destruct (get_schema_annotations_spec g session) as (H1 & H2 & _).
  split; [exact H1|]. split; [exact H2|]. split; [exact Hsent|].
  intros type_url proto_message Hg Hne.
  rewrite get_schema_annotations_annotate by done.
  rewrite (annotations_step_kept _ _ _ (annotation_anchor g uniq None)
             (any_pb2.mkAny type_url (resolve_proto session proto_message))).
  - by rewrite Hsent.
  - unfold surviving. simpl. by rewrite decide_False.
Qed.

Lemma C9_global_classification_witness :
  occurs "/" "_1" = false /\
  is_global_anchor (annotation_anchor scoped_graph "_1" None) = true /\
  name (annotation_anchor scoped_graph "_1" None)
  = "transform/scale/tft_schema_override_global_sentinel_1:0".
Proof.
  split; [reflexivity|]. split; [|reflexivity].
  apply (C9_global_classification scoped_graph constant_session "_1" eq_refl).
Defined.

(** ** Schema assembly: the loop over the features *)

Lemma domains_loop_spec tensor_ranges tensor_annotations items d0 fa0 :
  NoDup items.*1 ->
  ranges_on_int64 tensor_ranges items ->
  ranges_make_domains tensor_ranges items ->
  exists d fa,
    domains_loop tensor_ranges tensor_annotations items d0 fa0 = Ok (d, fa) /\
    (forall key tensor, (key, tensor) ∈ items ->
       d !! key = from_option Some (d0 !! key) (domain_of tensor_ranges tensor) /\
       fa !! key = from_option Some (fa0 !! key)
                     (annotation_of tensor_annotations tensor)) /\
    (forall key, key ∉ items.*1 -> d !! key = d0 !! key /\ fa !! key = fa0 !! key).
Proof.
  revert d0 fa0. induction items as [|[k t] items IH]; intros d0 fa0 Hnd Hint Hmk.
  - exists d0, fa0. split; [done|]. split; [|done].
    intros key tensor Hin. by apply elem_of_nil in Hin.
  - simpl in Hnd. apply NoDup_cons in Hnd as [Hk Hnd].
    assert (Hint' : ranges_on_int64 tensor_ranges items).
    { intros key tensor values Hin Hv Hs.
      apply (Hint key tensor values); [|done|done]. apply elem_of_cons. by right. }
    assert (Hmk' : ranges_make_domains tensor_ranges items).
    { intros key tensor values range Hin Hv Hr.
      apply (Hmk key tensor values); [|done|done]. apply elem_of_cons. by right. }
    assert (Hstep : exists d1 fa1,
      domains_loop tensor_ranges tensor_annotations ((k, t) :: items) d0 fa0
      = domains_loop tensor_ranges tensor_annotations items d1 fa1 /\
      d1 !! k = from_option Some (d0 !! k) (domain_of tensor_ranges t) /\
      fa1 !! k = from_option Some (fa0 !! k) (annotation_of tensor_annotations t) /\
      (forall key, key <> k -> d1 !! key = d0 !! key /\ fa1 !! key = fa0 !! key)).
    { simpl. unfold domain_of, annotation_of.
      destruct (feature_values t) as [values|] eqn:Hv; simpl.
      - assert (Hfa : exists fa1,
          fa1 = match tensor_annotations !! values with
                | Some annotation => <[k:=annotation]> fa0
                | None => fa0
                end /\
          fa1 !! k = from_option Some (fa0 !! k) (tensor_annotations !! values) /\
          (forall key, key <> k -> fa1 !! key = fa0 !! key)).
        { eexists. split; [done|].
          destruct (tensor_annotations !! values) as [annotation|]; simpl.
          - split; [apply lookup_insert_eq|]. intros key Hne. by apply lookup_insert_ne.
          - done. }
        destruct Hfa as (fa1 & -> & Hfa1 & Hfa2).
        destruct (tensor_ranges !! values) as [[min_value max_value]|] eqn:Hr; simpl.
        + rewrite (Hint k t values); [|apply elem_of_cons; by left|done|by rewrite Hr].
          rewrite bool_decide_eq_true_2 by done. simpl.
          destruct (Hmk k t values (min_value, max_value)) as [domain Hdomain];
            [apply elem_of_cons; by left|done|done|].
          simpl in Hdomain. rewrite Hdomain. simpl.
          eexists _, _. split; [done|]. split; [apply lookup_insert_eq|].
          split; [done|]. intros key Hne. split; [by apply lookup_insert_ne|by apply Hfa2].
        + eexists _, _. split; [done|]. split; [done|]. split; [done|].
          intros key Hne. split; [done|by apply Hfa2].
      - exists d0, fa0. done. }
    destruct Hstep as (d1 & fa1 & Hrun & Hd1 & Hfa1 & Hother).
    destruct (IH d1 fa1 Hnd Hint' Hmk') as (d & fa & Hloop & Hin & Hout).
    exists d, fa. split; [by rewrite Hrun|]. split.
    + intros key tensor [Heq|Hmem]%elem_of_cons.
      * injection Heq as -> ->. destruct (Hout k Hk) as [-> ->]. done.
      * destruct (Hin key tensor Hmem) as [-> ->].
        assert (Hne : key <> k).
        { intros ->. apply Hk. apply list_elem_of_fmap. by exists (k, tensor). }
        by destruct (Hother key Hne) as [-> ->].
    + intros key [Hne Hkey]%not_elem_of_cons.
      destruct (Hout key Hkey) as [-> ->]. by apply Hother.
Qed.

Lemma all_inferable_Ok features :
  NoDup features.*1 -> all_inferable features ->
  exists spec, _feature_spec_from_batched_tensors features = Ok spec.
Proof.
  intros Hnd Hall.
  destruct (feature_spec_loop_ok features ∅ Hnd Hall) as (r & Hr & _). by exists r.
Qed.

(** In a consistent graph the assertion of the loop holds, whatever the
    values the ranges were resolved to. *)
Lemma consistent_ranges_on_int64 (g : Graph) (d : gmap Tensor (Tensor * Tensor))
    (ranges : gmap Tensor (option RunValue * option RunValue))
    (features : list (string * Feature)) :
  overrides_consistent g ->
  _get_tensor_schema_overrides g = Ok d ->
  (forall t, is_Some (ranges !! t) -> is_Some (d !! t)) ->
  ranges_on_int64 ranges features.
Proof.
  intros (H1 & H2 & Hint) Hd Hsub key tensor values _ _ Hs.
  destruct (overrides_lookup g d H1 H2 Hd) as [Hkeys _].
  apply Hsub, Hkeys in Hs.
  by apply (proj1 (Forall_forall _ _) Hint).
Qed.

Lemma dict_snoc `{Countable K} {V} (items : list (K * V)) (k : K) (v : V) :
  dict (items ++ [(k, v)]) = <[k := v]> (dict items).
Proof. unfold dict. by rewrite foldl_app. Qed.

Lemma dict_lookup_Some_elem `{Countable K} {V} (items : list (K * V)) (k : K) (v : V) :
  dict items !! k = Some v -> (k, v) ∈ items.
Proof.
  induction items as [|[k' v'] items IH] using rev_ind.
  - unfold dict. simpl. by rewrite lookup_empty.
  - rewrite dict_snoc. destruct (decide (k' = k)) as [->|Hne].
    + rewrite lookup_insert_eq. intros [= ->].
      apply elem_of_app. right. by apply list_elem_of_singleton.
    + rewrite lookup_insert_ne by done. intros Hk%IH.
      apply elem_of_app. by left.
Qed.

Lemma overrides_Ok_inv (g : Graph) (d : gmap Tensor (Tensor * Tensor)) :
  _get_tensor_schema_overrides g = Ok d ->
  length (tft_schema_override_tensor g) = length (tft_schema_override_min g) /\
  length (tft_schema_override_tensor g) = length (tft_schema_override_max g) /\
  d = dict (zip (tft_schema_override_tensor g)
              (zip (tft_schema_override_min g) (tft_schema_override_max g))).
Proof.
  unfold _get_tensor_schema_overrides, py_assert.
  repeat case_bool_decide; simpl; try discriminate. by intros [= <-].
Qed.

(** The bounds found under a tensor are a min and a max tensor of the
    graph. *)
Lemma overrides_lookup_elem (g : Graph) (d : gmap Tensor (Tensor * Tensor))
    (t mn mx : Tensor) :
  _get_tensor_schema_overrides g = Ok d -> d !! t = Some (mn, mx) ->
  mn ∈ tft_schema_override_min g /\ mx ∈ tft_schema_override_max g.
Proof.
  intros (_ & _ & ->)%overrides_Ok_inv Hin%dict_lookup_Some_elem.
  apply elem_of_zip_r in Hin.
  split; [by eapply elem_of_zip_l|by eapply elem_of_zip_r].
Qed.


Lemma IntDomain_init_int64 (session : Session) (mn mx : Tensor) :
  int64_bound session mn -> int64_bound session mx ->
  exists lo hi,
    run session mn = integer_scalar lo /\ run session mx = integer_scalar hi /\
    IntDomain_init (Some (run session mn)) (Some (run session mx)) true
    = Ok (schema_pb2.mkIntDomain (Some lo) (Some hi) true).
Proof.
  intros (lo & Hlo & Hflo) (hi & Hhi & Hfhi). exists lo, hi.
  split; [done|]. split; [done|].
  unfold IntDomain_init, int64_field. rewrite Hlo, Hhi, Hflo. simpl. by rewrite Hfhi.
Qed.

(** When the session gives int64 integers for the registered bounds, every
    range that the loop looks up makes an [IntDomain]; so does every range
    without a session. *)
Lemma resolved_ranges_make_domains (g : Graph) (d : gmap Tensor (Tensor * Tensor))
    (session : option Session) (features : list (string * Feature)) :
  _get_tensor_schema_overrides g = Ok d ->
  bounds_resolve_to_int64 session g ->
  ranges_make_domains (resolved_ranges session d) features.
Proof.
  intros Hd Hb key tensor values range _ _ Hr.
  destruct session as [session|]; simpl in *.
  - unfold session_run_ranges in Hr. rewrite lookup_fmap in Hr.
    destruct (d !! values) as [[mn mx]|] eqn:Hl; [|discriminate].
    simpl in Hr. injection Hr as <-. simpl.
    destruct (overrides_lookup_elem g d values mn mx Hd Hl) as [Hmn Hmx].
    destruct (IntDomain_init_int64 session mn mx) as (lo & hi & _ & _ & ->);
      [apply Hb; by left|apply Hb; by right|by eexists].
  - rewrite lookup_fmap in Hr. destruct (d !! values); [|discriminate].
    simpl in Hr. injection Hr as <-. by eexists.
Qed.

(** ** Inference with an execution context *)


Lemma one_override_graph_consistent : overrides_consistent one_override_graph.
Proof. repeat split. repeat constructor. Qed.

Lemma one_feature_inferable : all_inferable [("f1", Dense bucket_tensor)].
Proof. repeat constructor. by eexists. Qed.



(** ** Inference without an execution context *)

(** C1, counterexample: without a session, a feature whose tensor has an
    override still receives an integer domain, with [min] and [max] unset
    and [is_categorical] true, so the domains handed to the schema
    construction are not empty. *)
Lemma C1_domain_set_without_session :
  infer_feature_schema [("f1", Dense bucket_tensor)] one_override_graph None
  = Ok (schema_from_feature_spec
          {["f1" := FixedLenFeature [Some 1] tf_int64]}
          {["f1" := schema_pb2.mkIntDomain None None true]}
          ∅ []) /\
  ({["f1" := schema_pb2.mkIntDomain None None true]} : gmap string schema_pb2.IntDomain) <> ∅.
Proof.
  split; [reflexivity|].
  intros Heq. apply (f_equal (lookup "f1")) in Heq.
  rewrite lookup_singleton_eq, lookup_empty in Heq. discriminate.
Qed.

(** C1, amended: in a consistent graph the lookup of the overrides does not
    raise, and without a session its result maps every registered tensor to
    the pair (None, None).  For features that can all be inferred the
    inference then returns a schema in which a feature whose value tensor
    has an override carries the integer domain with [min] and [max] unset
    and [is_categorical] true, every other feature carries no domain, and
    there is no annotation. *)
Theorem C1_no_session (features : list (string * Feature)) (g : Graph) :
  overrides_consistent g ->
  NoDup features.*1 ->
  all_inferable features ->
  (exists d, _get_tensor_schema_overrides g = Ok d /\
     forall t, t ∈ tft_schema_override_tensor g ->
       ((fun _ : Tensor * Tensor => (@None RunValue, @None RunValue)) <$> d) !! t
       = Some (None, None)) /\
  exists schema,
    infer_feature_schema features g None = Ok schema /\
    (forall key tensor values,
       (key, tensor) ∈ features -> feature_values tensor = Some values ->
       values ∈ tft_schema_override_tensor g ->
       domains schema !! key = Some (schema_pb2.mkIntDomain None None true)) /\
    (forall key tensor,
       (key, tensor) ∈ features ->
       (forall values, feature_values tensor = Some values ->
          values ∉ tft_schema_override_tensor g) ->
       domains schema !! key = None) /\
    (forall key, key ∉ features.*1 -> domains schema !! key = None) /\
    feature_annotations schema = ∅ /\
    global_annotations schema = [] /\
    _feature_spec_from_batched_tensors features = Ok (feature_spec schema).
Proof.
  intros Hg Hnd Hall.
  pose proof Hg as (H1 & H2 & Hint).
  pose proof (overrides_Ok g H1 H2) as Hd.
  set (d := dict _) in Hd.
  destruct (overrides_lookup g d H1 H2 Hd) as [Hkeys _].
  assert (Hnone : forall t, t ∈ tft_schema_override_tensor g ->
            ((fun _ : Tensor * Tensor => (@None RunValue, @None RunValue)) <$> d) !! t
            = Some (None, None)).
  { intros t [mm Hmm]%Hkeys. by rewrite lookup_fmap, Hmm. }
  split; [by exists d|].
  unfold infer_feature_schema. rewrite Hd. simpl.
  set (ranges := (fun _ : Tensor * Tensor => (@None RunValue, @None RunValue)) <$> d) in *.
  assert (Hasrt : ranges_on_int64 ranges features).
  { apply (consistent_ranges_on_int64 g d); [done|done|].
    intros t. unfold ranges. rewrite lookup_fmap. by rewrite fmap_is_Some. }
  pose proof (resolved_ranges_make_domains g d None features Hd I) as Hmk.
  destruct (domains_loop_spec ranges ∅ features ∅ ∅ Hnd Hasrt Hmk)
    as (dom & fa & Hloop & Hdom & Hout).
  rewrite Hloop. simpl.
  destruct (all_inferable_Ok features Hnd Hall) as [spec Hspec].
  rewrite Hspec. simpl.
  eexists. split; [done|]. simpl.
  split; [|split; [|split; [|split; [|split]]]]; try done.
  - intros key tensor values Hin Hv Hreg.
    destruct (Hdom key tensor Hin) as [-> _].
    unfold domain_of. rewrite Hv. simpl. by rewrite (Hnone values Hreg).
  - intros key tensor Hin Hreg.
    destruct (Hdom key tensor Hin) as [-> _].
    unfold domain_of. destruct (feature_values tensor) as [values|]; [|done].
    simpl. destruct (ranges !! values) as [range|] eqn:Hr; [|done].
    exfalso. apply (Hreg values eq_refl). apply Hkeys.
    unfold ranges in Hr. rewrite lookup_fmap in Hr.
    destruct (d !! values); [by eexists|discriminate].
  - intros key Hkey. by destruct (Hout key Hkey) as [-> _].
  - apply map_eq. intros key. rewrite lookup_empty.
    destruct (decide (key ∈ features.*1)) as [Hin|Hnin].
    + apply list_elem_of_fmap in Hin as ([k tensor] & -> & Hin). simpl.
      destruct (Hdom k tensor Hin) as [_ ->].
      unfold annotation_of. by destruct (feature_values tensor).
    + by destruct (Hout key Hnin) as [_ ->].
Qed.

Lemma C1_no_session_witness :
  overrides_consistent one_override_graph /\
  NoDup [("f1", Dense bucket_tensor)].*1 /\
  all_inferable [("f1", Dense bucket_tensor)] /\
  exists schema,
    infer_feature_schema [("f1", Dense bucket_tensor)] one_override_graph None
    = Ok schema /\
    domains schema !! "f1" = Some (schema_pb2.mkIntDomain None None true).
Proof.
  assert (Hnd : NoDup [("f1", Dense bucket_tensor)].*1).
  { simpl. apply NoDup_singleton. }
  split; [exact one_override_graph_consistent|]. split; [exact Hnd|].
  split; [exact one_feature_inferable|].
  destruct (C1_no_session [("f1", Dense bucket_tensor)] one_override_graph
              one_override_graph_consistent Hnd one_feature_inferable)
    as (_ & schema & Hrun & Hdom & _).
  exists schema. split; [exact Hrun|].
  apply (Hdom "f1" (Dense bucket_tensor) bucket_tensor).
  - apply list_elem_of_singleton. reflexivity.
  - reflexivity.
  - apply list_elem_of_singleton. reflexivity.
Defined.

(** ** Annotation collections of unequal lengths *)

(** C7, the failing input: the annotation collections have lengths 2, 2 and
    1, and yet their resolution returns a result, the second anchor lost
    with its type-url, and the inference returns a schema. *)
Theorem C7_annotation_lengths_not_checked :
  length (tft_schema_override_annotation_tensor mismatched_annotation_graph)
    <> length (tft_schema_override_annotation_proto mismatched_annotation_graph) /\
  _get_schema_annotations mismatched_annotation_graph constant_session
  = ({[bucket_tensor := [any_pb2.mkAny "type.googleapis.com/A" "payload"]]}, []) /\
  infer_feature_schema [("f1", Dense bucket_tensor)] mismatched_annotation_graph
    (Some constant_session)
  = Ok (schema_from_feature_spec
          {["f1" := FixedLenFeature [Some 1] tf_int64]}
          ∅
          {["f1" := [any_pb2.mkAny "type.googleapis.com/A" "payload"]]}
          []).
Proof. split; [simpl; lia|]. split; reflexivity. Qed.


(** * Further properties of the module *)

(** ** The lookup of the overrides *)

(** X1: when the three override collections have equal lengths, the lookup
    returns a dictionary whose keys are exactly the registered tensors, and
    a tensor registered several times maps to the min and max tensors of
    its last registration. *)
Theorem X1_overrides_last_registration_wins (g : Graph) :
  length (tft_schema_override_tensor g) = length (tft_schema_override_min g) ->
  length (tft_schema_override_tensor g) = length (tft_schema_override_max g) ->
  exists d, _get_tensor_schema_overrides g = Ok d /\
    (forall t, is_Some (d !! t) <-> t ∈ tft_schema_override_tensor g) /\
    (forall i t mn mx,
       tft_schema_override_tensor g !! i = Some t ->
       tft_schema_override_min g !! i = Some mn ->
       tft_schema_override_max g !! i = Some mx ->
       (forall j, i < j -> tft_schema_override_tensor g !! j <> Some t) ->
       d !! t = Some (mn, mx)).
Proof.
  intros H1 H2. eexists. split; [by apply overrides_Ok|].
  apply overrides_lookup; [done|done|by apply overrides_Ok].
Qed.

Lemma X1_overrides_last_registration_wins_witness :
  length (tft_schema_override_tensor twice_registered_graph)
    = length (tft_schema_override_min twice_registered_graph) /\
  length (tft_schema_override_tensor twice_registered_graph)
    = length (tft_schema_override_max twice_registered_graph) /\
  exists d, _get_tensor_schema_overrides twice_registered_graph = Ok d /\
            d !! bucket_tensor = Some (max_tensor, min_tensor).
Proof.
  split; [reflexivity|]. split; [reflexivity|].
  destruct (X1_overrides_last_registration_wins twice_registered_graph
              eq_refl eq_refl) as (d & Hd & _ & Hlast).
  exists d. split; [exact Hd|].
  apply (Hlast 1 bucket_tensor max_tensor min_tensor); try reflexivity.
  intros [|[|j]] Hj; [lia|lia|]. simpl. discriminate.
Defined.

(** X2: when the override collections have unequal lengths, the lookup
    raises the assertion error and so does the schema inference, with or
    without a session and whatever the features are, valid or not: the
    assertion comes before every other check. *)
Theorem X2_override_lengths_checked_first (g : Graph)
    (features : list (string * Feature)) (session : option Session) :
  length (tft_schema_override_tensor g) <> length (tft_schema_override_min g) \/
  length (tft_schema_override_tensor g) <> length (tft_schema_override_max g) ->
  _get_tensor_schema_overrides g = Raise AssertionError /\
  infer_feature_schema features g session = Raise AssertionError.
Proof.
  intros Hne. destruct (overrides_unequal_lengths_fatal g Hne) as [H1 H2].
  split; [exact H1|apply H2].
Qed.

Lemma X2_override_lengths_checked_first_witness :
  (length (tft_schema_override_tensor mismatched_override_graph)
     <> length (tft_schema_override_min mismatched_override_graph) \/
   length (tft_schema_override_tensor mismatched_override_graph)
     <> length (tft_schema_override_max mismatched_override_graph)) /\
  infer_feature_schema [("b", bad_dense)] mismatched_override_graph None
  = Raise AssertionError.
Proof.
  assert (Hne : length (tft_schema_override_tensor mismatched_override_graph)
                  <> length (tft_schema_override_min mismatched_override_graph) \/
                length (tft_schema_override_tensor mismatched_override_graph)
                  <> length (tft_schema_override_max mismatched_override_graph)).
  { left. simpl. lia. }
  split; [exact Hne|].
  apply (X2_override_lengths_checked_first mismatched_override_graph
           [("b", bad_dense)] None Hne).
Defined.

Lemma lookup_after_registration (g : Graph) (t mn mx : Tensor)
    (d : gmap Tensor (Tensor * Tensor)) :
  dtype t = tf_int64 ->
  _get_tensor_schema_overrides g = Ok d ->
  set_tensor_schema_override (a_Tensor t) (a_Tensor mn) (a_Tensor mx) g
  = (Ok tt, add_override t mn mx g) /\
  _get_tensor_schema_overrides (add_override t mn mx g) = Ok (<[t := (mn, mx)]> d).
Proof.
  intros Hd Hlook.
  assert (Hlen : length (tft_schema_override_tensor g) = length (tft_schema_override_min g)
                 /\ length (tft_schema_override_tensor g) = length (tft_schema_override_max g)).
  { revert Hlook. unfold _get_tensor_schema_overrides, py_assert.
    repeat case_bool_decide; simpl; try discriminate. done. }
  destruct Hlen as [H1 H2].
  rewrite overrides_Ok in Hlook by done. injection Hlook as <-.
  unfold set_tensor_schema_override.
  rewrite bool_decide_eq_false_2 by (intros Hne; by apply Hne).
  split; [done|].
  rewrite overrides_Ok by (simpl; rewrite !length_app; simpl; lia). simpl.
  rewrite (zip_with_app pair (tft_schema_override_min g) [mn]) by lia.
  rewrite zip_with_app by (rewrite length_zip_with; lia). simpl.
  by rewrite dict_snoc.
Qed.

(** X3: registering an override and then looking the overrides up: the
    dictionary is the one of the graph before, with the registered tensor
    now mapped to the registered min and max tensors; the entries of the
    other tensors are the ones they had. *)
Theorem X3_register_then_lookup (g : Graph) (t mn mx : Tensor)
    (d : gmap Tensor (Tensor * Tensor)) :
  dtype t = tf_int64 ->
  _get_tensor_schema_overrides g = Ok d ->
  (set_tensor_schema_override (a_Tensor t) (a_Tensor mn) (a_Tensor mx) g).1 = Ok tt /\
  _get_tensor_schema_overrides
    (set_tensor_schema_override (a_Tensor t) (a_Tensor mn) (a_Tensor mx) g).2
  = Ok (<[t := (mn, mx)]> d) /\
  (<[t := (mn, mx)]> d) !! t = Some (mn, mx) /\
  (forall t', t' <> t -> (<[t := (mn, mx)]> d) !! t' = d !! t').
Proof.
  intros Hd Hlook.
  destruct (lookup_after_registration g t mn mx d Hd Hlook) as [-> Hafter].
  split; [done|]. split; [exact Hafter|]. split.
  - apply lookup_insert_eq.
  - intros t' Hne. by apply lookup_insert_ne.
Qed.

Lemma X3_register_then_lookup_witness :
  dtype bucket_tensor = tf_int64 /\
  _get_tensor_schema_overrides empty_graph = Ok ∅ /\
  _get_tensor_schema_overrides
    (set_tensor_schema_override (a_Tensor bucket_tensor) (a_Tensor min_tensor)
       (a_Tensor max_tensor) empty_graph).2
  = Ok (<[bucket_tensor := (min_tensor, max_tensor)]> ∅).
Proof.
  split; [reflexivity|]. split; [reflexivity|].
  apply (X3_register_then_lookup empty_graph bucket_tensor min_tensor max_tensor ∅
           eq_refl eq_refl).
Defined.

(** ** The loop over the features: its failures *)













(** ** Feature-spec inference: what a returned mapping tells *)

Lemma feature_spec_loop_inv items acc r :
  feature_spec_loop items acc = Ok r ->
  all_inferable items /\
  dom r = dom acc ∪ list_to_set items.*1 /\
  (forall key spec, r !! key = Some spec ->
     acc !! key = Some spec \/
     exists tensor, (key, tensor) ∈ items /\ feature_spec_of_tensor tensor = Ok spec).
Proof.
  revert acc. induction items as [|[k t] items IH]; intros acc; simpl.
  - intros [= <-]. split; [constructor|]. split; [set_solver|]. auto.
  - destruct (feature_spec_of_tensor t) as [spec|e] eqn:Hspec; [|discriminate].
    simpl. intros (Hall & Hdom & Hlook)%IH. split; [|split].
    + constructor; [by exists spec|done].
    + rewrite Hdom, dom_insert_L. set_solver.
    + intros key spec' [Hacc|(tensor & Hin & Ht)]%Hlook.
      * destruct (decide (k = key)) as [->|Hne].
        -- rewrite lookup_insert_eq in Hacc. injection Hacc as <-.
           right. exists t. split; [apply elem_of_cons; by left|done].
        -- rewrite lookup_insert_ne in Hacc by done. by left.
      * right. exists tensor. split; [apply elem_of_cons; by right|done].
Qed.

Lemma all_inferable_loop_Ok items acc :
  all_inferable items -> exists r, feature_spec_loop items acc = Ok r.
Proof.
  intros Hall. revert acc.
  induction Hall as [|[k t] items [spec Hspec] _ IH]; intros acc; simpl.
  - by eexists.
  - simpl in Hspec. rewrite Hspec. simpl. apply IH.
Qed.

Lemma existsb_is_None_false (dims : list (option nat)) :
  existsb is_None dims = false -> exists sizes : list nat, dims = Some <$> sizes.
Proof.
  induction dims as [|[n|] dims IH]; simpl.
  - intros _. by exists [].
  - intros [sizes ->]%IH. by exists (n :: sizes).
  - discriminate.
Qed.

(** A descriptor is returned for a supported dtype only, and only for a
    dense tensor with a batch dimension followed by known dimensions or for
    a sparse tensor of rank 2. *)
Lemma feature_spec_of_tensor_inv tensor spec :
  feature_spec_of_tensor tensor = Ok spec ->
  supported_dtype (feature_dtype tensor) /\
  ((exists t batch (sizes : list nat),
      tensor = Dense t /\ get_shape t = Some (batch :: (Some <$> sizes)) /\
      spec = FixedLenFeature (Some <$> sizes) (dtype t)) \/
   (exists s, tensor = Sparse s /\ ndims (dense_shape s) = Some 2 /\
      spec = VarLenFeature (dtype (values s)))).
Proof.
  unfold feature_spec_of_tensor.
  destruct (dtype_not_supported (feature_dtype tensor)) eqn:Hd; [discriminate|].
  apply dtype_supported_cases in Hd. intros Hspec. split; [exact Hd|].
  destruct tensor as [t|s|d shape]; simpl in Hspec.
  - left. case_bool_decide as Hrank; [discriminate|].
    destruct (get_shape t) as [[|batch dims]|] eqn:Hs; simpl in *;
      try (exfalso; apply Hrank; set_solver).
    rewrite drop_0 in Hspec.
    destruct (existsb is_None dims) eqn:Hdims; [discriminate|].
    apply existsb_is_None_false in Hdims as [sizes ->].
    injection Hspec as <-. by exists t, batch, sizes.
  - right. case_bool_decide as Hrank; [discriminate|].
    injection Hspec as <-. exists s. split; [done|]. split; [|done].
    by destruct (decide (ndims (dense_shape s) = Some 2)).
  - discriminate.
Qed.

(** X6: the feature-spec inference returns a mapping exactly when every
    tensor of the dictionary has a descriptor; the mapping then has the
    names of the dictionary as its keys, and the empty dictionary gives the
    empty mapping. *)
Theorem X6_feature_spec_all_or_nothing (tensors : list (string * Feature)) :
  _feature_spec_from_batched_tensors [] = Ok ∅ /\
  ((exists r, _feature_spec_from_batched_tensors tensors = Ok r)
   <-> all_inferable tensors) /\
  (forall r, _feature_spec_from_batched_tensors tensors = Ok r ->
     dom r = list_to_set tensors.*1).
Proof.
  split; [done|]. split; [split|].
  - intros [r Hr]. by apply feature_spec_loop_inv in Hr as [Hall _].
  - apply all_inferable_loop_Ok.
  - intros r (_ & Hdom & _)%feature_spec_loop_inv. rewrite Hdom. set_solver.
Qed.

(** X7: every descriptor of a returned mapping is the descriptor of a tensor
    of the dictionary under that name, has one of the dtypes string, int64
    and float32, and is either the variable-length descriptor of a sparse
    tensor of rank 2 or the fixed-shape descriptor of a dense tensor, made
    of the known sizes that follow its batch dimension: no descriptor holds
    an unknown dimension. *)
Theorem X7_returned_descriptors (tensors : list (string * Feature))
    (r : gmap string FeatureSpec) (key : string) (spec : FeatureSpec) :
  _feature_spec_from_batched_tensors tensors = Ok r ->
  r !! key = Some spec ->
  exists tensor, (key, tensor) ∈ tensors /\
    feature_spec_of_tensor tensor = Ok spec /\
    supported_dtype (feature_dtype tensor) /\
    ((exists t batch (sizes : list nat),
        tensor = Dense t /\ get_shape t = Some (batch :: (Some <$> sizes)) /\
        spec = FixedLenFeature (Some <$> sizes) (dtype t)) \/
     (exists s, tensor = Sparse s /\ ndims (dense_shape s) = Some 2 /\
        spec = VarLenFeature (dtype (values s)))).
Proof.
  intros (_ & _ & Hlook)%feature_spec_loop_inv Hkey.
  destruct (Hlook key spec Hkey) as [Hacc|(tensor & Hin & Ht)].
  - by rewrite lookup_empty in Hacc.
  - exists tensor. split; [done|]. split; [done|].
    by apply feature_spec_of_tensor_inv.
Qed.

Lemma X7_returned_descriptors_witness :
  _feature_spec_from_batched_tensors [("image", Dense image_tensor)]
    = Ok {["image" := FixedLenFeature [Some 28; Some 28] tf_float32]} /\
  exists tensor, ("image", tensor) ∈ [("image", Dense image_tensor)] /\
    feature_spec_of_tensor tensor = Ok (FixedLenFeature [Some 28; Some 28] tf_float32).
Proof.
  split; [reflexivity|].
  destruct (X7_returned_descriptors [("image", Dense image_tensor)]
              {["image" := FixedLenFeature [Some 28; Some 28] tf_float32]}
              "image" (FixedLenFeature [Some 28; Some 28] tf_float32)
              eq_refl (lookup_singleton_eq _ _)) as (tensor & Hin & Hspec & _).
  exists tensor. split; [exact Hin|exact Hspec].
Defined.




(** ** The assembled schema *)







(** ** Annotations and the schema *)

Lemma foldl_ext_in {A B} (f1 f2 : A -> B -> A) (l : list B) (a : A) :
  (forall a x, x ∈ l -> f1 a x = f2 a x) -> foldl f1 a l = foldl f2 a l.
Proof.
  revert a. induction l as [|x l IH]; intros a Hext; [done|]. simpl.
  rewrite (Hext a x) by (apply elem_of_cons; by left).
  apply IH. intros a' x' Hx'. apply Hext. apply elem_of_cons. by right.
Qed.




(** X12: the resolution of the annotations runs the session on the deferred
    payloads only: two sessions that give the same bytes for the deferred
    payloads of the graph give the same annotations, whatever else they
    differ in. *)
Theorem X12_session_runs_deferred_only (g : Graph) (session1 session2 : Session) :
  (forall t, Deferred t ∈ tft_schema_override_annotation_proto g ->
     run_bytes session1 t = run_bytes session2 t) ->
  _get_schema_annotations g session1 = _get_schema_annotations g session2.
Proof.
  intros Hsame. unfold _get_schema_annotations. apply foldl_ext_in.
  intros acc [tensor [type_url proto_value]] Hin.
  apply elem_of_zip_r, elem_of_zip_r in Hin.
  unfold annotations_step.
  assert (Hp : resolve_proto session1 proto_value = resolve_proto session2 proto_value).
  { destruct proto_value as [b|t]; [done|]. simpl. by apply Hsame. }
  by rewrite Hp.
Qed.

Lemma X12_session_runs_deferred_only_witness :
  _get_schema_annotations annotated_graph constant_session
  = _get_schema_annotations annotated_graph
      (mkSession (fun _ => other_value)
         (fun t => if bool_decide (name t = "proto:0") then "serialized" else "")).
Proof.
  apply (X12_session_runs_deferred_only annotated_graph).
  intros t Hin. simpl in Hin.
  apply elem_of_cons in Hin as [Heq|Hin]; [discriminate|].
  apply list_elem_of_singleton in Hin. injection Hin as ->. reflexivity.
Defined.

(** ** The two registries side by side *)

Lemma set_tensor_schema_override_frame tensor min_value max_value g :
  let g' := (set_tensor_schema_override tensor min_value max_value g).2 in
  tft_schema_override_annotation_tensor g' = tft_schema_override_annotation_tensor g /\
  tft_schema_override_annotation_type g' = tft_schema_override_annotation_type g /\
  tft_schema_override_annotation_proto g' = tft_schema_override_annotation_proto g /\
  name_stack g' = name_stack g.
Proof.
  unfold set_tensor_schema_override. repeat case_match; simpl; done.
Qed.

(** X13: the two registries do not disturb each other.  Registering an
    annotation leaves the lookup of the overrides as it was; a call of
    [set_tensor_schema_override], accepted or refused, leaves the resolution
    of the annotations as it was; and without a session the inference does
    not read the annotation collections at all, whatever they hold, of
    equal lengths or not. *)
Theorem X13_registries_independent (g : Graph) :
  (forall uniq type_url proto_message tensor,
     _get_tensor_schema_overrides (annotate uniq type_url proto_message tensor g)
     = _get_tensor_schema_overrides g) /\
  (forall tensor min_value max_value session,
     _get_schema_annotations
       (set_tensor_schema_override tensor min_value max_value g).2 session
     = _get_schema_annotations g session) /\
  (forall features anchors type_urls protos scope,
     infer_feature_schema features
       (mkGraph (tft_schema_override_tensor g) (tft_schema_override_min g)
          (tft_schema_override_max g) anchors type_urls protos scope) None
     = infer_feature_schema features g None).
Proof.
  split; [done|]. split; [|done].
  intros tensor min_value max_value session.
  destruct (set_tensor_schema_override_frame tensor min_value max_value g)
    as (Ha & Hb & Hc & _).
  unfold _get_schema_annotations. by rewrite Ha, Hb, Hc.
Qed.

(** X14: the registration functions keep the collections parallel.  From a
    consistent graph, any sequence of calls of [set_tensor_schema_override]
    and [annotate], the refused calls included, leads to a graph whose
    override collections have equal lengths and hold int64 tensors only and
    whose annotation collections have equal lengths; the lookup of the
    overrides does not raise on it. *)
Theorem X14_registrations_keep_consistency (g : Graph) (calls : list registration) :
  overrides_consistent g -> annotations_consistent g ->
  overrides_consistent (foldl register g calls) /\
  annotations_consistent (foldl register g calls) /\
  exists d, _get_tensor_schema_overrides (foldl register g calls) = Ok d.
Proof.
  revert g. induction calls as [|call calls IH]; intros g Hov Han.
  - split; [done|]. split; [done|]. destruct Hov as (H1 & H2 & _).
    eexists. by apply overrides_Ok.
  - simpl. apply IH.
    + destruct call as [tensor min_value max_value|uniq type_url proto_message tensor].
      * by apply set_tensor_schema_override_consistent.
      * exact Hov.
    + destruct call as [tensor min_value max_value|uniq type_url proto_message tensor].
      * destruct (set_tensor_schema_override_frame tensor min_value max_value g)
          as (Ha & Hb & Hc & _).
        unfold annotations_consistent, register. by rewrite Ha, Hb, Hc.
      * by apply annotate_consistent.
Qed.

Lemma X14_registrations_keep_consistency_witness :
  overrides_consistent empty_graph /\ annotations_consistent empty_graph /\
  overrides_consistent
    (foldl register empty_graph
       [call_set_tensor_schema_override (a_Tensor bucket_tensor) (a_Tensor min_tensor)
          (a_Tensor max_tensor);
        call_set_tensor_schema_override (a_SparseTensor sparse_ids) (a_int 0) (a_int 9);
        call_annotate "" "type.googleapis.com/A" (Literal "payload") None]).
Proof.
  assert (Hov : overrides_consistent empty_graph) by (repeat split; constructor).
  assert (Han : annotations_consistent empty_graph) by (split; reflexivity).
  split; [exact Hov|]. split; [exact Han|].
  apply (X14_registrations_keep_consistency empty_graph _ Hov Han).
Defined.

(** ** The order of the features *)




(** ** Registration followed by inference *)



(** ** Bounds that are not int64 integers *)




